(** * Sphere graph drawing: projection of the cities and arcs between them

    A shallow embedding of [src/sphere_graph.js] (the [Drawing.SphereGraph]
    constructor with its [createGraph], [drawNode] and [drawEdge]).

    JavaScript numbers are IEEE doubles.  They are idealised here as real
    numbers: [Math.sin], [Math.cos], [Math.abs] and [Math.PI] are [sin],
    [cos], [Rabs] and [PI], and the literal [1.3] is the real 13/10.  Where
    the difference between [Math.PI] and pi decides a statement, the
    projection is also given with the number that [Math.PI] is
    ([drawNode_position_at], [Math_PI]).

    JavaScript objects are shared by reference.  The position objects
    ([{x: 44, y: 0}] and the like) live in a store addressed by [loc]; a
    node, its [cities] entry and its mesh all hold the same address. *)

From Stdlib Require Import Reals Machin Lra Lia.
From stdpp Require Import base option list strings pretty.

Local Open Scope R_scope.

(** ** The rendering library's values *)

Module THREE.

(** Modelled from the spec: the rendering library is not in [src/].  A
    three-dimensional Cartesian point (spec section 3), as
    [new THREE.Vector3(x, y, z)] makes it. *)
Record Vector3 : Type := mkVector3 { x : R; y : R; z : R }.

(** Modelled from the spec: a quadratic Bezier curve is given by its three
    control points (spec section 4.3 step 4), the arguments of
    [new THREE.QuadraticBezierCurve3(v0, v1, v2)]. *)
Record QuadraticBezierCurve3 : Type :=
  mkQuadraticBezierCurve3 { v0 : Vector3; v1 : Vector3; v2 : Vector3 }.

(** Modelled from the spec: a path is the curves added to it;
    [new THREE.CurvePath()] has none and [path.add(curve)] appends one.  The
    spec knows single curves only (section 4.3). *)
Record CurvePath : Type := mkCurvePath { curves : list QuadraticBezierCurve3 }.

Definition newCurvePath : CurvePath := {| curves := [] |}.

Definition add (path : CurvePath) (curve : QuadraticBezierCurve3) : CurvePath :=
  {| curves := curves path ++ [curve] |}.

End THREE.

(** ** Position objects and the store *)

Abbreviation loc := nat (only parsing).

(** A position object: the literal [{x: .., y: ..}] of a [cities] entry has
    no [z] until [drawNode] assigns one. *)
Record Position : Type := mkPosition { pos_x : R; pos_y : R; pos_z : option R }.

Definition set_x (v : R) (p : Position) : Position :=
  {| pos_x := v; pos_y := pos_y p; pos_z := pos_z p |}.

Definition set_y (v : R) (p : Position) : Position :=
  {| pos_x := pos_x p; pos_y := v; pos_z := pos_z p |}.

Definition set_z (v : R) (p : Position) : Position :=
  {| pos_x := pos_x p; pos_y := pos_y p; pos_z := Some v |}.

(** The position object as the three numbers [drawEdge] reads from it; an
    object without [z] has none (in JavaScript the arithmetic on the missing
    [z] would give NaN, which the idealisation has no value for). *)
Definition toVector3 (p : Position) : option THREE.Vector3 :=
  z ← pos_z p; Some (THREE.mkVector3 (pos_x p) (pos_y p) z).

(** ** The graph container *)

Module Graph.

(** Modelled from the spec: the [Node] constructor of the graph library is
    not in [src/]; [new Node(i)] followed by the assignments of
    [node.data.name] and [node.position] gives a node with an id, a label
    and a reference to a position object (spec section 3). *)
Record Node : Type := mkNode { id : nat; name : string; position : loc }.

(** Modelled from the spec: an edge is a pair of node references. *)
Record Edge : Type := mkEdge { source : Node; target : Node }.

(** Modelled from the spec: the [Graph] class is not in [src/]; it owns
    the nodes and the edges in insertion order and has an optional limit
    on the number of nodes (spec section 3). *)
Record t : Type := mkGraph { limit : option nat; nodes : list Node; edges : list Edge }.

(** Modelled from the spec: [new Graph({limit: options.limit})] is an empty
    graph with the given limit, if any. *)
Definition new (options_limit : option nat) : t :=
  {| limit := options_limit; nodes := []; edges := [] |}.

(** Modelled from the spec: "its id is already present". *)
Definition has_id (g : t) (i : nat) : bool :=
  existsb (fun n => Nat.eqb (id n) i) (nodes g).

(** Modelled from the spec: with a limit L, exactly L additions of distinct
    nodes succeed (spec section 8, limit enforcement). *)
Definition reached_limit (g : t) : bool :=
  match limit g with
  | Some l => Nat.leb l (length (nodes g))
  | None => false
  end.

(** Modelled from the spec: [addNode] is not in [src/].  Spec section 4.1:
    it succeeds and registers the node if its id is not already present
    and the configured node limit (if any) is not exceeded; otherwise it
    fails without mutating state. *)
Definition addNode (g : t) (node : Node) : t * bool :=
  if negb (has_id g (id node)) && negb (reached_limit g)
  then ({| limit := limit g; nodes := nodes g ++ [node]; edges := edges g |}, true)
  else (g, false).

(** Modelled from the spec: "an edge already connects the unordered pair". *)
Definition connects (a b : Node) (e : Edge) : bool :=
  (Nat.eqb (id (source e)) (id a) && Nat.eqb (id (target e)) (id b))
  || (Nat.eqb (id (source e)) (id b) && Nat.eqb (id (target e)) (id a)).

(** Modelled from the spec: [addEdge] is not in [src/].  Spec section 4.1:
    it succeeds and registers a new edge if [a.id != b.id] and no edge
    already connects the unordered pair; otherwise it fails and leaves the
    graph unchanged. *)
Definition addEdge (g : t) (a b : Node) : t * bool :=
  if negb (Nat.eqb (id a) (id b)) && negb (existsb (connects a b) (edges g))
  then ({| limit := limit g; nodes := nodes g; edges := edges g ++ [mkEdge a b] |}, true)
  else (g, false).

End Graph.

(** ** Curves and their sampling *)

Module Curve.
Import THREE.

(** Modelled from the spec: one coordinate of a quadratic Bezier curve with
    the control values [p0], [p1], [p2]. *)
Definition b2 (t p0 p1 p2 : R) : R :=
  (1 - t) * (1 - t) * p0 + 2 * (1 - t) * t * p1 + t * t * p2.

(** Modelled from the spec: the curve evaluation of the rendering library
    is not in [src/].  Spec section 4.3 step 4 calls the curve a quadratic
    Bezier curve with control points source, bulged midpoint, target: the
    point at parameter [t] is the Bernstein combination of the three. *)
Definition getPoint (c : QuadraticBezierCurve3) (t : R) : Vector3 :=
  {| x := b2 t (x (v0 c)) (x (v1 c)) (x (v2 c));
     y := b2 t (y (v0 c)) (y (v1 c)) (y (v2 c));
     z := b2 t (z (v0 c)) (z (v1 c)) (z (v2 c)) |}.

(** Modelled from the spec: sampling a curve into [n] points (spec section
    4.3 step 5), the first at the source and the last at the target (spec
    section 8, arc endpoints); the parameters in between are taken evenly
    spaced. *)
Definition getPoints (c : QuadraticBezierCurve3) (n : nat) : list Vector3 :=
  map (fun i : nat => getPoint c (INR i / INR (n - 1))) (seq 0 n).

(** Modelled from the spec: [path.createPointsGeometry(n)] of the
    rendering library is not in [src/]; for the paths this program builds,
    which hold one curve, it is the sampling of that curve into [n] points
    (spec section 4.3 step 5).  The spec says nothing about other paths,
    and they get no points here. *)
Definition createPointsGeometry (path : CurvePath) (n : nat) : list Vector3 :=
  match curves path with
  | [c] => getPoints c n
  | _ => []
  end.

End Curve.

(** ** The drawing's state *)

(** What [scene.add] has received. *)
Inductive Object3D : Type :=
| EarthMesh
| NodeMesh (id : nat) (position : loc)
| Line (vertices : list THREE.Vector3).

Record State : Type := mkState {
  heap : list Position;
  graph : Graph.t;
  scene : list Object3D
}.

Definition set_heap (h : list Position) (st : State) : State :=
  {| heap := h; graph := graph st; scene := scene st |}.

Definition set_graph (g : Graph.t) (st : State) : State :=
  {| heap := heap st; graph := g; scene := scene st |}.

Definition scene_add (o : Object3D) (st : State) : State :=
  {| heap := heap st; graph := graph st; scene := scene st ++ [o] |}.

(** ** [drawNode] *)

Definition area : R := 5000.

(** Lines 323 to 328: [phi] and [theta] are read from the position object
    before its [x], [y] and [z] are assigned, one after the other, in the
    same object. *)
Definition drawNode_position (p : Position) : Position :=
  let phi := (90 - pos_x p) * PI / 180 in
  let theta := (180 - pos_y p) * PI / 180 in
  let p := set_x (area * sin phi * cos theta) p in
  let p := set_y (area * cos phi) p in
  let p := set_z (area * sin phi * sin theta) p in
  p.

(** [drawNode(node)]: the node's position object is overwritten in the
    store, and the mesh added to the scene refers to the same object
    ([node.data.draw_object.position = node.position]).  The mesh's random
    colour and [node.layout] are left out.  [None] stands for a reference
    to no object, which a JavaScript reference cannot be. *)
Definition drawNode (node : Graph.Node) (st : State) : option State :=
  p ← heap st !! Graph.position node;
  let st := set_heap (<[Graph.position node := drawNode_position p]> (heap st)) st in
  Some (scene_add (NodeMesh (Graph.id node) (Graph.position node)) st).

(** The number that [Math.PI] is: the binary64 number nearest to pi,
    3.141592653589793115997963..., that is 884279719003555 / 2^48. *)
Definition Math_PI : R := 884279719003555 / 281474976710656.

(** Lines 323 to 328 once more, with the number that stands for [Math.PI]
    as a parameter: [drawNode_position] is [drawNode_position_at PI].  The
    arithmetic, [sin] and [cos] stay those of the real numbers. *)
Definition drawNode_position_at (pi : R) (p : Position) : Position :=
  let phi := (90 - pos_x p) * pi / 180 in
  let theta := (180 - pos_y p) * pi / 180 in
  let p := set_x (area * sin phi * cos theta) p in
  let p := set_y (area * cos phi) p in
  let p := set_z (area * sin phi * sin theta) p in
  p.

(** ** [drawEdge] *)

(** Lines 359 to 369: the curve through the averaged and bulged middle. *)
Definition drawEdge_curve (sourceXy targetXy : THREE.Vector3) : THREE.QuadraticBezierCurve3 :=
  let AvgX := (THREE.x sourceXy + THREE.x targetXy) / 2 in
  let AvgY := (THREE.y sourceXy + THREE.y targetXy) / 2 in
  let AvgZ := (THREE.z sourceXy + THREE.z targetXy) / 2 in
  let diffX := Rabs (THREE.x sourceXy - THREE.x targetXy) in
  let diffY := Rabs (THREE.y sourceXy - THREE.y targetXy) in
  let middle := (AvgX, AvgY, AvgZ + (diffX + diffY / 1.3)) in
  THREE.mkQuadraticBezierCurve3
    (THREE.mkVector3 (THREE.x sourceXy) (THREE.y sourceXy) (THREE.z sourceXy))
    (THREE.mkVector3 (fst (fst middle)) (snd (fst middle)) (snd middle))
    (THREE.mkVector3 (THREE.x targetXy) (THREE.y targetXy) (THREE.z targetXy)).

(** Lines 370 to 375: the path of the one curve, sampled with the argument
    400. *)
Definition drawEdge_vertices (sourceXy targetXy : THREE.Vector3) : list THREE.Vector3 :=
  let curve := drawEdge_curve sourceXy targetXy in
  let path := THREE.add THREE.newCurvePath curve in
  Curve.createPointsGeometry path 400.

(** [drawEdge(source, target)]: the line of the sampled points is added to
    the scene.  The line's material and its [lookAt] are left out, and so is
    the empty [if] on the target's name. *)
Definition drawEdge (source target : Graph.Node) (st : State) : option State :=
  sourcePos ← heap st !! Graph.position source;
  targetPos ← heap st !! Graph.position target;
  sourceXy ← toVector3 sourcePos;
  targetXy ← toVector3 targetPos;
  Some (scene_add (Line (drawEdge_vertices sourceXy targetXy)) st).

(** ** [createGraph] *)

Record City : Type := mkCity { data : string; position : loc }.

(** The seven position objects of the [cities] literal, in the order of
    their creation. *)
Definition cities_heap : list Position :=
  [ mkPosition 44 0 None;
    mkPosition 13 100 None;
    mkPosition 19 72 None;
    mkPosition 39 116 None;
    mkPosition 52 13 None;
    mkPosition (-27) 153 None;
    mkPosition (-33) (-70) None ].

Definition cities : list City :=
  [ mkCity "Bordeax" 0;
    mkCity "Bangkok" 1;
    mkCity "Bombay" 2;
    mkCity "Beijing" 3;
    mkCity "Berlin" 4;
    mkCity "Brisbane" 5;
    mkCity "Santiago" 6 ].

(** The [for] loop of lines 238 to 245, from index [i] on the rest [cs] of
    [cities]: what [graph.addNode] returns is dropped and [drawNode] is
    called in every round. *)
Fixpoint createGraph_nodes (i : nat) (cs : list City) (nodes : list Graph.Node)
    (st : State) : option (list Graph.Node * State) :=
  match cs with
  | [] => Some (nodes, st)
  | c :: cs =>
      let node := Graph.mkNode i (data c) (position c) in
      let nodes := nodes ++ [node] in
      let st := set_graph (fst (Graph.addNode (graph st) node)) st in
      st ← drawNode node st;
      createGraph_nodes (S i) cs nodes st
  end.

(** The inner [for] loop of lines 249 to 254 over the nodes left after the
    shift. *)
Fixpoint createGraph_targets (current : Graph.Node) (targets : list Graph.Node)
    (st : State) : option State :=
  match targets with
  | [] => Some st
  | target :: targets =>
      let (g, added) := Graph.addEdge (graph st) current target in
      let st := set_graph g st in
      st ← (if added then drawEdge current target st else Some st);
      createGraph_targets current targets st
  end.

(** The [while] loop of lines 247 to 255: [nodes.shift()] takes the first
    node until none is left. *)
Fixpoint createGraph_edges (nodes : list Graph.Node) (st : State) : option State :=
  match nodes with
  | [] => Some st
  | current :: nodes =>
      st ← createGraph_targets current nodes st;
      createGraph_edges nodes st
  end.

Definition createGraph (st : State) : option State :=
  '(nodes, st) ← createGraph_nodes 0 cities [] st;
  createGraph_edges nodes st.

(** The state in which the constructor calls [createGraph]: the graph was
    made with [options.limit], [init] has put the globe into the scene, and
    the store holds the position objects of the [cities] literal (they are
    made on entry to [createGraph]; nothing else is ever allocated in this
    store). *)
Definition init (options_limit : option nat) : State :=
  {| heap := cities_heap; graph := Graph.new options_limit; scene := [EarthMesh] |}.

(** [new Drawing.SphereGraph(options)] up to the end of [createGraph];
    [animate] renders and changes none of this. *)
Definition SphereGraph (options_limit : option nat) : option State :=
  createGraph (init options_limit).

(** ** The info text *)

(** [info_text] is an object used as a map from keys to strings;
    [for (index in info_text)] visits its keys in the order of their first
    assignment, which the list keeps. *)
Abbreviation InfoText := (list (string * string)) (only parsing).

Fixpoint info_get (key : string) (info_text : InfoText) : option string :=
  match info_text with
  | [] => None
  | (k, v) :: info_text => if String.eqb k key then Some v else info_get key info_text
  end.

(** [info_text[key] = value]: an existing key keeps its place, a new one
    goes last. *)
Fixpoint info_set (key value : string) (info_text : InfoText) : InfoText :=
  match info_text with
  | [] => [(key, value)]
  | (k, v) :: info_text =>
      if String.eqb k key then (k, value) :: info_text
      else (k, v) :: info_set key value info_text
  end.

(** [delete info_text[key]] *)
Fixpoint info_delete (key : string) (info_text : InfoText) : InfoText :=
  match info_text with
  | [] => []
  | (k, v) :: info_text =>
      if String.eqb k key then info_delete key info_text
      else (k, v) :: info_delete key info_text
  end.

(** The [selected] callback of the object selection, lines 188 to 195:
    [obj] is [null] or an object with an [id]. *)
Definition selected (obj : option nat) (info_text : InfoText) : InfoText :=
  match obj with
  | Some id => info_set "select" ("Object " +:+ pretty id) info_text
  | None => info_delete "select" info_text
  end.

(** One round of the loop of [printInfo], lines 431 to 434. *)
Definition printInfo_step (str : string) (entry : string * string) : string :=
  let str :=
    if negb (String.eqb str "") && negb (String.eqb (snd entry) "")
    then str +:+ " - " else str in
  str +:+ snd entry.

(** [printInfo(text)], lines 428 to 437: the string that becomes the
    [innerHTML] of the info box.  The parameter [text] is not used. *)
Definition printInfo (info_text : InfoText) : string :=
  fold_left printInfo_step info_text "".

(** ** Random numbers *)

(** [Math.floor] *)
Definition Math_floor (r : R) : R := IZR (Int_part r).

(** [randomFromTo(from, to)], lines 441 to 443; [random] is what
    [Math.random()] returns, a number from 0 (included) to 1 (excluded). *)
Definition randomFromTo (random from to : R) : R :=
  Math_floor (random * (to - from + 1) + from).

(** ** The algorithms in the spec's words *)

Module Spec.

(** Spec section 4.2: [phi = (90 - geo.x) * pi / 180],
    [theta = (180 - geo.y) * pi / 180] and the position
    [(R sin phi cos theta, R cos phi, R sin phi sin theta)]. *)
Definition project (radius geo_x geo_y : R) : THREE.Vector3 :=
  let phi := (90 - geo_x) * PI / 180 in
  let theta := (180 - geo_y) * PI / 180 in
  {| THREE.x := radius * sin phi * cos theta;
     THREE.y := radius * cos phi;
     THREE.z := radius * sin phi * sin theta |}.

(** Spec section 4.3 step 1: the componentwise midpoint. *)
Definition midpoint (source target : THREE.Vector3) : THREE.Vector3 :=
  {| THREE.x := (THREE.x source + THREE.x target) / 2;
     THREE.y := (THREE.y source + THREE.y target) / 2;
     THREE.z := (THREE.z source + THREE.z target) / 2 |}.

(** Spec section 4.3 steps 2 and 3: the midpoint moved along the z axis by
    [dx + dy/1.3]. *)
Definition bulged_midpoint (source target : THREE.Vector3) : THREE.Vector3 :=
  let M := midpoint source target in
  let dx := Rabs (THREE.x source - THREE.x target) in
  let dy := Rabs (THREE.y source - THREE.y target) in
  {| THREE.x := THREE.x M; THREE.y := THREE.y M; THREE.z := THREE.z M + (dx + dy / 1.3) |}.

End Spec.

(** ** Vocabulary of the statements *)

(** The numbers of the position object that a node refers to. *)
Definition position_of (st : State) (node : Graph.Node) : option THREE.Vector3 :=
  p ← heap st !! Graph.position node; toVector3 p.

(** The squared distance of a point from the origin. *)
Definition norm2 (v : THREE.Vector3) : R :=
  THREE.x v * THREE.x v + THREE.y v * THREE.y v + THREE.z v * THREE.z v.

(** The same curve walked from its other end. *)
Definition reversed (c : THREE.QuadraticBezierCurve3) : THREE.QuadraticBezierCurve3 :=
  THREE.mkQuadraticBezierCurve3 (THREE.v2 c) (THREE.v1 c) (THREE.v0 c).


(** Two position objects already on the sphere: the north pole and the
    point of the equator on the positive x axis. *)
Definition two_points : State :=
  {| heap := [mkPosition 0 5000 (Some 0); mkPosition 5000 0 (Some 0)];
     graph := Graph.new None;
     scene := [] |}.

Definition north : Graph.Node := Graph.mkNode 0 "north" 0.
Definition east : Graph.Node := Graph.mkNode 1 "east" 1.

(** The nodes that the first loop makes, one per city. *)
Definition all_nodes : list Graph.Node :=
  imap (fun i c => Graph.mkNode i (data c) (position c)) cities.

(** Every earlier element with every later one, in the order of the loops. *)
Fixpoint pairs {A : Type} (l : list A) : list (A * A) :=
  match l with
  | [] => []
  | a :: l => map (pair a) l ++ pairs l
  end.

(** The projection of the coordinate that the [cities] literal gives for the
    position object of a node. *)
Definition projected (node : Graph.Node) : option THREE.Vector3 :=
  p ← cities_heap !! Graph.position node;
  Some (Spec.project 5000 (pos_x p) (pos_y p)).

Definition arc_of (e : Graph.Node * Graph.Node) : option Object3D :=
  s ← projected (fst e); t ← projected (snd e); Some (Line (drawEdge_vertices s t)).

Definition mesh_of (node : Graph.Node) : Object3D :=
  NodeMesh (Graph.id node) (Graph.position node).

Definition edge_of (e : Graph.Node * Graph.Node) : Graph.Edge :=
  Graph.mkEdge (fst e) (snd e).

(** The nodes that a graph with the given limit accepts out of a list of
    nodes with distinct ids. *)
Definition accepted (options_limit : option nat) (l : list Graph.Node) : list Graph.Node :=
  match options_limit with
  | Some n => take n l
  | None => l
  end.

Definition final (options_limit : option nat) : State :=
  {| heap := map drawNode_position cities_heap;
     graph := {| Graph.limit := options_limit;
                 Graph.nodes := accepted options_limit all_nodes;
                 Graph.edges := map edge_of (pairs all_nodes) |};
     scene := EarthMesh :: map mesh_of all_nodes ++ omap arc_of (pairs all_nodes) |}.

Definition edge_ids (e : Graph.Edge) : nat * nat :=
  (Graph.id (Graph.source e), Graph.id (Graph.target e)).

(** An edge's pair of ids without its direction. *)
Definition unordered (e : Graph.Edge) : nat * nat :=
  (Nat.min (Graph.id (Graph.source e)) (Graph.id (Graph.target e)),
   Nat.max (Graph.id (Graph.source e)) (Graph.id (Graph.target e))).

(** The vertices of the lines of a scene, in the order of their drawing. *)
Definition lines (sc : list Object3D) : list (list THREE.Vector3) :=
  omap (fun o => match o with Line vertices => Some vertices | _ => None end) sc.

(** The ids of the node meshes of a scene, in the order of their drawing. *)
Definition meshes (sc : list Object3D) : list nat :=
  omap (fun o => match o with NodeMesh i _ => Some i | _ => None end) sc.

(** The nodes that the first loop makes from the cities [cs] when it starts
    at the index [i]. *)
Fixpoint make_nodes (i : nat) (cs : list City) : list Graph.Node :=
  match cs with
  | [] => []
  | c :: cs => Graph.mkNode i (data c) (position c) :: make_nodes (S i) cs
  end.

(** A node whose position object has all of [x], [y] and [z]. *)
Definition drawn (st : State) (node : Graph.Node) : Prop :=
  is_Some (position_of st node).

(** The line that [drawEdge] draws for an edge in a given state. *)
Definition line_of (st : State) (e : Graph.Edge) (vertices : list THREE.Vector3) : Prop :=
  exists s t : THREE.Vector3,
    position_of st (Graph.source e) = Some s /\
    position_of st (Graph.target e) = Some t /\
    vertices = drawEdge_vertices s t.

(** The values of an info text that are not empty, in the order of their
    keys. *)
Definition shown (info_text : InfoText) : list string :=
  List.filter (fun v => negb (String.eqb v "")) (map snd info_text).

(** The string that the loop of [printInfo] reaches from [str] over entries
    whose values that are not empty are [values]. *)
Definition joined (str : string) (values : list string) : string :=
  if String.eqb str "" then String.concat " - " values
  else match values with
       | [] => str
       | _ => str +:+ " - " +:+ String.concat " - " values
       end.

(** Evaluation of a run that leaves the numbers and the sampled arcs as
    they are written. *)
Ltac run :=
  lazy -[drawEdge_vertices sin cos PI IZR Rabs Rdiv Rminus Rplus Rmult Ropp area].

(** * Properties *)

(** ** The model on small inputs *)

Example literal_1_3 : 1.3 = 13 / 10.
Proof. lra. Qed.

Example addNode_twice :
  let n := Graph.mkNode 0 "a" 0 in
  snd (Graph.addNode (fst (Graph.addNode (Graph.new None) n)) n) = false.
Proof. reflexivity. Qed.

Example addNode_limit_1 :
  let g := fst (Graph.addNode (Graph.new (Some 1%nat)) (Graph.mkNode 0 "a" 0)) in
  Graph.addNode g (Graph.mkNode 1 "b" 1) = (g, false).
Proof. reflexivity. Qed.

Example addEdge_self_loop :
  let n := Graph.mkNode 0 "a" 0 in
  snd (Graph.addEdge (Graph.new None) n n) = false.
Proof. reflexivity. Qed.

Example addEdge_other_direction :
  let a := Graph.mkNode 0 "a" 0 in
  let b := Graph.mkNode 1 "b" 1 in
  snd (Graph.addEdge (fst (Graph.addEdge (Graph.new None) a b)) b a) = false.
Proof. reflexivity. Qed.

Example pairs_3 : pairs [1; 2; 3]%nat = [(1, 2); (1, 3); (2, 3)]%nat.
Proof. reflexivity. Qed.

Example getPoints_3 (c : THREE.QuadraticBezierCurve3) :
  Curve.getPoints c 3 =
    [Curve.getPoint c (0 / 2); Curve.getPoint c (1 / 2); Curve.getPoint c (2 / 2)].
Proof.
  unfold Curve.getPoints. cbn [seq map Nat.sub].
  replace (INR 0) with 0 by reflexivity.
  replace (INR 1) with 1 by reflexivity.
  replace (INR 2) with 2 by (cbn [INR]; lra).
  reflexivity.
Qed.

(** ** Angles of the projection *)

Lemma phi_equator : (90 - 0) * PI / 180 = PI / 2.
Proof. lra. Qed.

Lemma phi_north : (90 - 90) * PI / 180 = 0.
Proof. lra. Qed.

Lemma phi_south : (90 - -90) * PI / 180 = PI.
Proof. lra. Qed.

Lemma theta_meridian : (180 - 0) * PI / 180 = PI.
Proof. lra. Qed.

Lemma Vector3_eq (a b c a' b' c' : R) :
  a = a' -> b = b' -> c = c' -> THREE.mkVector3 a b c = THREE.mkVector3 a' b' c'.
Proof. intros -> -> ->. reflexivity. Qed.

(** ** [drawNode] and the store *)

Lemma toVector3_drawNode_position (p : Position) :
  toVector3 (drawNode_position p) = Some (Spec.project 5000 (pos_x p) (pos_y p)).
Proof. reflexivity. Qed.

Lemma drawNode_eq (node : Graph.Node) (st : State) (p : Position) :
  heap st !! Graph.position node = Some p ->
  drawNode node st =
    Some {| heap := <[Graph.position node := drawNode_position p]> (heap st);
            graph := graph st;
            scene := scene st ++ [NodeMesh (Graph.id node) (Graph.position node)] |}.
Proof. intros H. unfold drawNode. rewrite H. reflexivity. Qed.

(** C1: for a node whose position object holds the geographic coordinate
    (x, y), [drawNode] leaves in that object the position that the spec's
    formula gives for radius 5000: phi = (90 - x) * pi / 180,
    theta = (180 - y) * pi / 180 and
    (R sin phi cos theta, R cos phi, R sin phi sin theta). *)
Theorem drawNode_projects (node : Graph.Node) (st : State) (p : Position) :
  heap st !! Graph.position node = Some p ->
  exists st',
    drawNode node st = Some st' /\
    position_of st' node = Some (Spec.project 5000 (pos_x p) (pos_y p)).
Proof.
  intros H. eexists. split.
  - apply drawNode_eq, H.
  - unfold position_of. cbn [heap].
    rewrite list_lookup_insert_eq by (eapply lookup_lt_Some, H).
    apply toVector3_drawNode_position.
Qed.

Lemma drawNode_projects_witness :
  heap (init None) !! Graph.position (Graph.mkNode 1 "Bangkok" 1) = Some (mkPosition 13 100 None) /\
  exists st',
    drawNode (Graph.mkNode 1 "Bangkok" 1) (init None) = Some st' /\
    position_of st' (Graph.mkNode 1 "Bangkok" 1) = Some (Spec.project 5000 13 100).
Proof.
  split.
  - reflexivity.
  - apply (drawNode_projects (Graph.mkNode 1 "Bangkok" 1) (init None) (mkPosition 13 100 None)).
    reflexivity.
Defined.

(** ** [drawEdge] *)

Lemma drawEdge_eq (source target : Graph.Node) (st : State) (s t : THREE.Vector3) :
  position_of st source = Some s ->
  position_of st target = Some t ->
  drawEdge source target st =
    Some {| heap := heap st; graph := graph st;
            scene := scene st ++ [Line (drawEdge_vertices s t)] |}.
Proof.
  unfold position_of, drawEdge. intros Hs Ht.
  destruct (heap st !! Graph.position source) as [ps|]; [|discriminate].
  destruct (heap st !! Graph.position target) as [pt|]; [|discriminate].
  cbn [mbind option_bind] in Hs, Ht |- *.
  rewrite Hs. cbn [mbind option_bind]. rewrite Ht. reflexivity.
Qed.

Lemma drawEdge_curve_eq (s t : THREE.Vector3) :
  drawEdge_curve s t = THREE.mkQuadraticBezierCurve3 s (Spec.bulged_midpoint s t) t.
Proof. destruct s, t. reflexivity. Qed.

(** C2: for endpoints source and target, the line that [drawEdge] adds
    samples the quadratic Bezier curve whose control points are source, the
    componentwise midpoint with z increased by dx + dy/1.3 (dx and dy the
    absolute differences of the x and of the y components), and target. *)
Theorem drawEdge_control_points (source target : Graph.Node) (st : State)
    (s t : THREE.Vector3) :
  position_of st source = Some s ->
  position_of st target = Some t ->
  let curve :=
    {| THREE.v0 := s;
       THREE.v1 :=
         {| THREE.x := (THREE.x s + THREE.x t) / 2;
            THREE.y := (THREE.y s + THREE.y t) / 2;
            THREE.z := (THREE.z s + THREE.z t) / 2
                       + (Rabs (THREE.x s - THREE.x t) + Rabs (THREE.y s - THREE.y t) / 1.3) |};
       THREE.v2 := t |} in
  drawEdge_curve s t = curve /\
  THREE.v1 curve = Spec.bulged_midpoint s t /\
  drawEdge source target st =
    Some (scene_add
            (Line (Curve.createPointsGeometry (THREE.add THREE.newCurvePath curve) 400)) st).
Proof.
  intros Hs Ht curve. split; [|split].
  - apply drawEdge_curve_eq.
  - reflexivity.
  - rewrite (drawEdge_eq _ _ _ _ _ Hs Ht). unfold drawEdge_vertices.
    rewrite drawEdge_curve_eq. reflexivity.
Qed.

Lemma drawEdge_control_points_witness :
  position_of two_points north = Some (THREE.mkVector3 0 5000 0) /\
  position_of two_points east = Some (THREE.mkVector3 5000 0 0) /\
  drawEdge_curve (THREE.mkVector3 0 5000 0) (THREE.mkVector3 5000 0 0) =
    {| THREE.v0 := THREE.mkVector3 0 5000 0;
       THREE.v1 :=
         THREE.mkVector3 ((0 + 5000) / 2) ((5000 + 0) / 2)
           ((0 + 0) / 2 + (Rabs (0 - 5000) + Rabs (5000 - 0) / 1.3));
       THREE.v2 := THREE.mkVector3 5000 0 0 |}.
Proof.
  split; [reflexivity|]. split; [reflexivity|].
  apply (drawEdge_control_points north east two_points
           (THREE.mkVector3 0 5000 0) (THREE.mkVector3 5000 0 0)); reflexivity.
Defined.

(** ** The projection at the origin and at the poles *)

Lemma sin_phi_equator : sin ((90 - 0) * PI / 180) = 1.
Proof. rewrite phi_equator. apply sin_PI2. Qed.

Lemma cos_phi_equator : cos ((90 - 0) * PI / 180) = 0.
Proof. rewrite phi_equator. apply cos_PI2. Qed.

Lemma drawNode_position_origin (z0 : option R) :
  drawNode_position (mkPosition 0 0 z0) = mkPosition (-5000) 0 (Some 0).
Proof.
  unfold drawNode_position, set_x, set_y, set_z, area; cbn [pos_x pos_y pos_z].
  rewrite sin_phi_equator, cos_phi_equator, theta_meridian, cos_PI, sin_PI.
  f_equal; [lra | lra | f_equal; lra].
Qed.

(** C3, as the spec has it, fails: the projection of (x:0, y:0) is not on
    the plane x = 0, and it is as far as 5000 from (0, 5000, 0) both in x
    and in y. *)
Lemma drawNode_origin_off_plane :
  pos_x (drawNode_position (mkPosition 0 0 None)) <> 0 /\
  Rabs (pos_x (drawNode_position (mkPosition 0 0 None)) - 0) = 5000 /\
  Rabs (pos_y (drawNode_position (mkPosition 0 0 None)) - 5000) = 5000.
Proof.
  rewrite drawNode_position_origin. cbn [pos_x pos_y].
  split; [lra|]. split.
  - rewrite Rabs_left by lra. lra.
  - rewrite Rabs_left by lra. lra.
Qed.

(** C3, amended: the projection of (x:0, y:0) is the point (-5000, 0, 0):
    it is at distance 5000 from the origin and lies on the x axis, on the
    planes y = 0 and z = 0. *)
Theorem drawNode_origin (z0 : option R) :
  let v := THREE.mkVector3 (-5000) 0 0 in
  toVector3 (drawNode_position (mkPosition 0 0 z0)) = Some v /\
  sqrt (norm2 v) = 5000.
Proof.
  cbv zeta. rewrite drawNode_position_origin. split; [reflexivity|].
  unfold norm2; cbn [THREE.x THREE.y THREE.z].
  replace (-5000 * -5000 + 0 * 0 + 0 * 0) with (5000 * 5000) by lra.
  apply sqrt_square. lra.
Qed.

Lemma drawNode_position_at_PI (p : Position) :
  drawNode_position_at PI p = drawNode_position p.
Proof. reflexivity. Qed.

Lemma Math_PI_lt_PI : Math_PI < PI.
Proof.
  pose proof (PI_2_3_7_ineq 7) as [H _].
  change (S (2 * 7)) with 15%nat in H.
  unfold sum_f_R0, tg_alt, PI_2_3_7_tg, Ratan_seq in H. simpl in H.
  unfold Math_PI. lra.
Qed.

Lemma PI_near_Math_PI : PI < Math_PI + 13 / 10 ^ 17.
Proof.
  pose proof (PI_2_3_7_ineq 8) as [_ H].
  change (2 * 8)%nat with 16%nat in H.
  unfold sum_f_R0, tg_alt, PI_2_3_7_tg, Ratan_seq in H. simpl in H.
  unfold Math_PI. lra.
Qed.

Lemma sin_Math_PI : 0 < sin Math_PI < 13 / 10 ^ 17.
Proof.
  pose proof Math_PI_lt_PI. pose proof PI_near_Math_PI.
  assert (0 < Math_PI) by (unfold Math_PI; lra).
  split.
  - apply sin_gt_0; assumption.
  - rewrite <- sin_PI_x. pose proof (sin_lt_x (PI - Math_PI)). lra.
Qed.

Lemma cos_Math_PI : -1 <= cos Math_PI < -1 + 1 / 10 ^ 17.
Proof.
  pose proof Math_PI_lt_PI. pose proof PI_near_Math_PI. pose proof PI_4.
  assert (2 < Math_PI) by (unfold Math_PI; lra).
  destruct sin_Math_PI as [S0 S1].
  pose proof (sin2_cos2 Math_PI) as Q. unfold Rsqr in Q.
  pose proof (COS_bound Math_PI) as [C0 C1].
  assert (C : cos Math_PI < 0) by (apply cos_lt_0; lra).
  split; [exact C0|].
  assert (sin Math_PI * sin Math_PI < 13 / 10 ^ 17 * (13 / 10 ^ 17)).
  { apply Rmult_le_0_lt_compat; lra. }
  nra.
Qed.

Lemma south_pole_at_Math_PI (a : R) (za : option R) :
  drawNode_position_at Math_PI (mkPosition (-90) a za) =
    mkPosition (5000 * sin Math_PI * cos ((180 - a) * Math_PI / 180))
               (5000 * cos Math_PI)
               (Some (5000 * sin Math_PI * sin ((180 - a) * Math_PI / 180))).
Proof.
  unfold drawNode_position_at, set_x, set_y, set_z, area; cbn [pos_x pos_y pos_z].
  replace ((90 - -90) * Math_PI / 180) with Math_PI by lra. reflexivity.
Qed.

(** C7, as the spec has it, fails at x = -90: with the number that
    [Math.PI] is, the position keeps a dependence on y; for y = 0 its x is
    negative and for y = 180 its x is positive, so neither is exactly
    (0, -5000, 0), nor are the two the same. *)
Lemma drawNode_south_pole_depends_on_y :
  pos_x (drawNode_position_at Math_PI (mkPosition (-90) 0 None)) < 0 /\
  0 < pos_x (drawNode_position_at Math_PI (mkPosition (-90) 180 None)).
Proof.
  rewrite !south_pole_at_Math_PI; cbn [pos_x].
  destruct sin_Math_PI as [S0 _]. destruct cos_Math_PI as [_ C].
  replace ((180 - 0) * Math_PI / 180) with Math_PI by lra.
  replace ((180 - 180) * Math_PI / 180) with 0 by lra.
  rewrite cos_0. split; nra.
Qed.

(** C7, amended: at x = 90 the projection is exactly the pole (0, 5000, 0)
    whatever y is, and whatever number stands for [Math.PI], so two
    longitudes a and b give the same position; at x = -90 it is
    (0, -5000, 0) whatever y is only if [Math.PI] is taken as pi, and with
    the number that [Math.PI] is it is near that point for every y: x and z
    are within 6.5e-13 of 0 and y is within 1e-12 of -5000. *)
Theorem drawNode_poles_at (pi a b : R) (za zb : option R) :
  drawNode_position_at pi (mkPosition 90 a za) = drawNode_position_at pi (mkPosition 90 b zb) /\
  toVector3 (drawNode_position_at pi (mkPosition 90 a za)) = Some (THREE.mkVector3 0 5000 0) /\
  toVector3 (drawNode_position (mkPosition (-90) a za)) = Some (THREE.mkVector3 0 (-5000) 0) /\
  exists v : THREE.Vector3,
    toVector3 (drawNode_position_at Math_PI (mkPosition (-90) a za)) = Some v /\
    Rabs (THREE.x v) <= 65 / 10 ^ 14 /\
    Rabs (THREE.y v - -5000) <= 1 / 10 ^ 12 /\
    Rabs (THREE.z v) <= 65 / 10 ^ 14.
Proof.
  assert (N : forall y zy,
             drawNode_position_at pi (mkPosition 90 y zy) = mkPosition 0 5000 (Some 0)).
  { intros y zy.
    unfold drawNode_position_at, set_x, set_y, set_z, area; cbn [pos_x pos_y pos_z].
    replace ((90 - 90) * pi / 180) with 0 by lra.
    rewrite sin_0, cos_0. f_equal; [lra | lra | f_equal; lra]. }
  split; [|split; [|split]].
  - rewrite !N. reflexivity.
  - rewrite N. reflexivity.
  - unfold drawNode_position, set_x, set_y, set_z, area, toVector3;
      cbn [pos_x pos_y pos_z mbind option_bind].
    rewrite phi_south, sin_PI, cos_PI. f_equal. apply Vector3_eq; lra.
  - rewrite south_pole_at_Math_PI. eexists. split; [reflexivity|].
    cbn [THREE.x THREE.y THREE.z pos_x pos_y pos_z].
    destruct sin_Math_PI as [S0 S1]. destruct cos_Math_PI as [C0 C1].
    set (theta := (180 - a) * Math_PI / 180).
    pose proof (COS_bound theta) as [Ct0 Ct1]. pose proof (SIN_bound theta) as [St0 St1].
    assert (Hx : - sin Math_PI <= sin Math_PI * cos theta <= sin Math_PI) by (split; nra).
    assert (Hz : - sin Math_PI <= sin Math_PI * sin theta <= sin Math_PI) by (split; nra).
    rewrite !Rmult_assoc.
    split; [|split]; apply Rabs_le; lra.
Qed.

(** ** Sampling of a curve *)

Lemma b2_0 (p0 p1 p2 : R) : Curve.b2 0 p0 p1 p2 = p0.
Proof. unfold Curve.b2. ring. Qed.

Lemma b2_1 (p0 p1 p2 : R) : Curve.b2 1 p0 p1 p2 = p2.
Proof. unfold Curve.b2. ring. Qed.

Lemma b2_reverse (t p0 p1 p2 : R) : Curve.b2 (1 - t) p0 p1 p2 = Curve.b2 t p2 p1 p0.
Proof. unfold Curve.b2. ring. Qed.

Lemma getPoint_0 (c : THREE.QuadraticBezierCurve3) : Curve.getPoint c 0 = THREE.v0 c.
Proof. unfold Curve.getPoint. rewrite !b2_0. destruct (THREE.v0 c). reflexivity. Qed.

Lemma getPoint_1 (c : THREE.QuadraticBezierCurve3) : Curve.getPoint c 1 = THREE.v2 c.
Proof. unfold Curve.getPoint. rewrite !b2_1. destruct (THREE.v2 c). reflexivity. Qed.

Lemma getPoint_reversed (c : THREE.QuadraticBezierCurve3) (t : R) :
  Curve.getPoint (reversed c) t = Curve.getPoint c (1 - t).
Proof. unfold Curve.getPoint, reversed. cbn. rewrite !b2_reverse. reflexivity. Qed.

Lemma length_getPoints (c : THREE.QuadraticBezierCurve3) (n : nat) :
  length (Curve.getPoints c n) = n.
Proof. unfold Curve.getPoints. rewrite List.length_map. apply List.length_seq. Qed.

Lemma head_getPoints (c : THREE.QuadraticBezierCurve3) (n : nat) :
  head (Curve.getPoints c (S n)) = Some (THREE.v0 c).
Proof.
  unfold Curve.getPoints. cbn [seq map head]. f_equal.
  replace (INR 0 / INR (S n - 1)) with 0.
  - apply getPoint_0.
  - cbn [INR]. unfold Rdiv. ring.
Qed.

Lemma last_getPoints (c : THREE.QuadraticBezierCurve3) (n : nat) :
  last (Curve.getPoints c (S (S n))) = Some (THREE.v2 c).
Proof.
  unfold Curve.getPoints. rewrite seq_S, map_app. cbn [map].
  rewrite last_snoc. f_equal.
  replace (INR (0 + S n) / INR (S (S n) - 1)) with 1.
  - apply getPoint_1.
  - replace (S (S n) - 1)%nat with (S n) by lia. cbn [Nat.add].
    symmetry. apply Rdiv_diag. apply not_0_INR. discriminate.
Qed.

Lemma rev_map_seq {A : Type} (n : nat) :
  forall f g : nat -> A,
    (forall i, (i < n)%nat -> f (n - 1 - i)%nat = g i) ->
    rev (map f (seq 0 n)) = map g (seq 0 n).
Proof.
  induction n as [|n IH]; intros f g H; [reflexivity|].
  rewrite seq_S at 1. rewrite map_app, rev_app_distr. cbn [map rev app seq Nat.add].
  f_equal.
  - rewrite <- (H 0%nat) by lia. f_equal. lia.
  - rewrite <- seq_shift, map_map. apply IH.
    intros i Hi. rewrite <- (H (S i)) by lia. f_equal. lia.
Qed.

Lemma getPoints_reversed (c : THREE.QuadraticBezierCurve3) (n : nat) :
  Curve.getPoints (reversed c) (S (S n)) = rev (Curve.getPoints c (S (S n))).
Proof.
  unfold Curve.getPoints. symmetry. apply rev_map_seq.
  intros i Hi. rewrite getPoint_reversed. f_equal.
  replace (S (S n) - 1)%nat with (S n) by lia.
  rewrite minus_INR by lia.
  assert (INR (S n) <> 0) by (apply not_0_INR; discriminate).
  field. assumption.
Qed.

Lemma drawEdge_curve_reversed (a b : THREE.Vector3) :
  drawEdge_curve b a = reversed (drawEdge_curve a b).
Proof.
  rewrite !drawEdge_curve_eq. unfold reversed. cbn [THREE.v0 THREE.v1 THREE.v2].
  f_equal. unfold Spec.bulged_midpoint, Spec.midpoint. cbn [THREE.x THREE.y THREE.z].
  apply Vector3_eq; [lra | lra |].
  rewrite (Rabs_minus_sym (THREE.x b)), (Rabs_minus_sym (THREE.y b)). lra.
Qed.

Lemma drawEdge_vertices_eq (s t : THREE.Vector3) :
  drawEdge_vertices s t = Curve.getPoints (drawEdge_curve s t) 400.
Proof. reflexivity. Qed.

(** C4: the polyline sampled for an arc has exactly 400 points, whatever
    the two endpoints are. *)
Theorem drawEdge_sample_count (source target : THREE.Vector3) :
  length (drawEdge_vertices source target) = 400%nat.
Proof. rewrite drawEdge_vertices_eq. apply length_getPoints. Qed.

(** C9: the first point of the sampled arc is the source position and the
    last point is the target position. *)
Theorem drawEdge_endpoints (source target : THREE.Vector3) :
  head (drawEdge_vertices source target) = Some source /\
  last (drawEdge_vertices source target) = Some target.
Proof.
  rewrite drawEdge_vertices_eq. change 400%nat with (S (S 398)).
  rewrite head_getPoints, last_getPoints, drawEdge_curve_eq. split; reflexivity.
Qed.

(** C10: the arc is symmetric in its endpoints: for (a, b) and for (b, a)
    the bulged control point is the same and the end control points are
    swapped, so that the curve for (b, a) at t is the curve for (a, b) at
    1 - t and the two sampled polylines are each other's reverse. *)
Theorem drawEdge_symmetric (a b : THREE.Vector3) :
  THREE.v1 (drawEdge_curve b a) = THREE.v1 (drawEdge_curve a b) /\
  THREE.v0 (drawEdge_curve b a) = THREE.v2 (drawEdge_curve a b) /\
  THREE.v2 (drawEdge_curve b a) = THREE.v0 (drawEdge_curve a b) /\
  (forall t : R,
     Curve.getPoint (drawEdge_curve b a) t = Curve.getPoint (drawEdge_curve a b) (1 - t)) /\
  drawEdge_vertices b a = rev (drawEdge_vertices a b).
Proof.
  rewrite (drawEdge_curve_reversed a b). repeat split.
  - intros t. apply getPoint_reversed.
  - rewrite !drawEdge_vertices_eq, (drawEdge_curve_reversed a b).
    change 400%nat with (S (S 398)). apply getPoints_reversed.
Qed.

(** ** The run of [createGraph] *)

Lemma SphereGraph_final (options_limit : option nat) :
  SphereGraph options_limit = Some (final options_limit).
Proof.
  destruct options_limit as [[|[|[|[|[|[|[|n]]]]]]]|]; try (run; reflexivity).
  destruct n; run; reflexivity.
Qed.

Lemma drawNode_frame (node : Graph.Node) (st st' : State) (l : loc) :
  drawNode node st = Some st' ->
  l <> Graph.position node ->
  heap st' !! l = heap st !! l.
Proof.
  unfold drawNode. destruct (heap st !! Graph.position node) as [p|]; [|discriminate].
  intros [= <-] Hl. cbn [heap scene_add set_heap mbind option_bind].
  apply list_lookup_insert_ne. congruence.
Qed.

(** C5, as the spec has it, fails: after the run of [createGraph] the
    position object of the first city no longer holds the coordinate x = 44
    that the [cities] literal gave it. *)
Lemma createGraph_overwrites_coordinate :
  exists (st' : State) (p' : Position),
    SphereGraph None = Some st' /\
    cities_heap !! 0%nat = Some (mkPosition 44 0 None) /\
    heap st' !! 0%nat = Some p' /\
    pos_x p' <> 44.
Proof.
  eexists _, _. split; [apply SphereGraph_final|].
  split; [reflexivity|]. split; [reflexivity|].
  unfold drawNode_position, set_x, set_y, set_z, area; cbn [pos_x pos_y pos_z].
  rewrite theta_meridian, cos_PI.
  assert (0 <= sin ((90 - 44) * PI / 180)).
  { pose proof PI_RGT_0. apply sin_ge_0; lra. }
  lra.
Qed.

(** C5, amended: every node refers to the position object of its [cities]
    entry; that object holds the two-dimensional coordinate from its
    creation until the node is drawn, and after the run it holds, in place
    of the coordinate, the position that the projection derives from that
    coordinate and from nothing else. *)
Theorem createGraph_positions_derived (options_limit : option nat) :
  exists st' : State,
    SphereGraph options_limit = Some st' /\
    Forall2 (fun c node => Graph.position node = position c) cities all_nodes /\
    Forall (fun node =>
              exists p : Position,
                cities_heap !! Graph.position node = Some p /\
                heap st' !! Graph.position node = Some (drawNode_position p) /\
                position_of st' node = Some (Spec.project 5000 (pos_x p) (pos_y p)))
           all_nodes.
Proof.
  eexists. split; [apply SphereGraph_final|]. split.
  - repeat constructor.
  - repeat (constructor; [eexists; repeat split; reflexivity|]). constructor.
Qed.

Lemma drawEdge_vertices_ends (s t : THREE.Vector3) :
  head (drawEdge_vertices s t) = Some s /\
  last (drawEdge_vertices s t) = Some t /\
  length (drawEdge_vertices s t) = 400%nat.
Proof.
  rewrite drawEdge_vertices_eq. change 400%nat with (S (S 398)).
  rewrite head_getPoints, last_getPoints, length_getPoints, drawEdge_curve_eq.
  repeat split.
Qed.

(** C6: the run over the seven cities gives exactly 21 edges, one for each
    pair of an earlier and a later city, all distinct as unordered pairs,
    and the line drawn for an edge is the arc from the projected position of
    its first city to the projected position of its second city: its first
    vertex is the one position and its last vertex is the other. *)
Theorem createGraph_all_pairs (options_limit : option nat) :
  exists st' : State,
    SphereGraph options_limit = Some st' /\
    length (Graph.edges (graph st')) = 21%nat /\
    map edge_ids (Graph.edges (graph st')) =
      [ (0, 1); (0, 2); (0, 3); (0, 4); (0, 5); (0, 6);
        (1, 2); (1, 3); (1, 4); (1, 5); (1, 6);
        (2, 3); (2, 4); (2, 5); (2, 6);
        (3, 4); (3, 5); (3, 6);
        (4, 5); (4, 6);
        (5, 6) ]%nat /\
    NoDup (map unordered (Graph.edges (graph st'))) /\
    Forall2 (fun e vertices =>
               exists s t : THREE.Vector3,
                 projected (Graph.source e) = Some s /\
                 projected (Graph.target e) = Some t /\
                 position_of st' (Graph.source e) = Some s /\
                 position_of st' (Graph.target e) = Some t /\
                 vertices = drawEdge_vertices s t /\
                 head vertices = Some s /\
                 last vertices = Some t /\
                 length vertices = 400%nat /\
                 THREE.v0 (drawEdge_curve s t) = s /\
                 THREE.v2 (drawEdge_curve s t) = t)
            (Graph.edges (graph st')) (lines (scene st')).
Proof.
  eexists. split; [apply SphereGraph_final|].
  split; [reflexivity|]. split; [reflexivity|]. split.
  - apply (bool_decide_unpack _). vm_compute. reflexivity.
  - run.
    repeat (constructor;
            [eexists _, _;
             do 5 (split; [reflexivity|]);
             split; [apply drawEdge_vertices_ends|];
             split; [apply drawEdge_vertices_ends|];
             split; [apply drawEdge_vertices_ends|];
             split; reflexivity|]).
    constructor.
Qed.

Lemma addNode_reached_limit (g : Graph.t) (node : Graph.Node) :
  Graph.reached_limit g = true -> Graph.addNode g node = (g, false).
Proof.
  intros H. unfold Graph.addNode. rewrite H, andb_false_r. reflexivity.
Qed.

(** C8 at the limit 3: the graph holds the nodes 0, 1 and 2 only, it refuses
    any further node, and yet the scene has a mesh for each of the seven
    nodes. *)
Theorem createGraph_draws_refused_nodes :
  exists st' : State,
    SphereGraph (Some 3%nat) = Some st' /\
    map Graph.id (Graph.nodes (graph st')) = [0; 1; 2]%nat /\
    Forall (fun node => snd (Graph.addNode (graph st') node) = false) all_nodes /\
    meshes (scene st') = [0; 1; 2; 3; 4; 5; 6]%nat.
Proof.
  eexists. split; [apply SphereGraph_final|].
  split; [reflexivity|]. split.
  - repeat constructor.
  - run. reflexivity.
Qed.

(** * Further properties *)

Example pretty_3 : selected (Some 3%nat) [] = [("select", "Object 3")].
Proof. reflexivity. Qed.

Example printInfo_3 :
  printInfo [("nodes", "Nodes 7"); ("calc", ""); ("edges", "Edges 21")] = "Nodes 7 - Edges 21".
Proof. reflexivity. Qed.

(** ** The projection as a map onto the sphere *)


Lemma sin_cos_square (a : R) : sin a * sin a + cos a * cos a = 1.
Proof. exact (sin2_cos2 a). Qed.

Lemma norm2_project (x y : R) : norm2 (Spec.project 5000 x y) = 5000 * 5000.
Proof.
  unfold norm2, Spec.project; cbn [THREE.x THREE.y THREE.z].
  set (phi := (90 - x) * PI / 180). set (theta := (180 - y) * PI / 180).
  pose proof (sin_cos_square phi) as Hp. pose proof (sin_cos_square theta) as Ht.
  replace (5000 * sin phi * cos theta * (5000 * sin phi * cos theta) +
           5000 * cos phi * (5000 * cos phi) +
           5000 * sin phi * sin theta * (5000 * sin phi * sin theta))
    with (5000 * 5000 * (sin phi * sin phi * (sin theta * sin theta + cos theta * cos theta)
                         + cos phi * cos phi)) by ring.
  rewrite Ht, Rmult_1_r, Hp. ring.
Qed.

(** X1: whatever coordinate a position object holds, the position that
    [drawNode] computes from it lies on the sphere of radius 5000 around the
    origin. *)
Theorem drawNode_position_on_sphere (p : Position) :
  exists v : THREE.Vector3,
    toVector3 (drawNode_position p) = Some v /\
    norm2 v = 5000 * 5000 /\
    sqrt (norm2 v) = 5000.
Proof.
  eexists. split; [apply toVector3_drawNode_position|].
  pose proof (norm2_project (pos_x p) (pos_y p)) as N.
  split; [exact N|]. rewrite N. apply sqrt_square. lra.
Qed.







(** ** What [drawNode] changes *)

Lemma drawNode_effect (node : Graph.Node) (st : State) (p : Position) :
  heap st !! Graph.position node = Some p ->
  exists st' : State,
    drawNode node st = Some st' /\
    heap st' !! Graph.position node = Some (drawNode_position p) /\
    (forall l : loc, l <> Graph.position node -> heap st' !! l = heap st !! l) /\
    length (heap st') = length (heap st) /\
    graph st' = graph st /\
    scene st' = scene st ++ [NodeMesh (Graph.id node) (Graph.position node)].
Proof.
  intros H. eexists. split; [apply drawNode_eq, H|]. cbn [heap graph scene].
  split; [|split; [|split; [|split]]].
  - apply list_lookup_insert_eq. eapply lookup_lt_Some, H.
  - intros l Hl. apply list_lookup_insert_ne. congruence.
  - apply length_insert.
  - reflexivity.
  - reflexivity.
Qed.

(** X4: [drawNode] overwrites the position object of its node and no other
    object of the store, leaves the graph as it is and adds to the scene one
    mesh, which refers to the node's own position object. *)
Theorem drawNode_changes_one_object (node : Graph.Node) (st : State) (p : Position) :
  heap st !! Graph.position node = Some p ->
  exists st' : State,
    drawNode node st = Some st' /\
    heap st' !! Graph.position node = Some (drawNode_position p) /\
    (forall l : loc, l <> Graph.position node -> heap st' !! l = heap st !! l) /\
    length (heap st') = length (heap st) /\
    graph st' = graph st /\
    scene st' = scene st ++ [NodeMesh (Graph.id node) (Graph.position node)].
Proof. apply drawNode_effect. Qed.

Lemma drawNode_changes_one_object_witness :
  heap (init None) !! Graph.position (Graph.mkNode 2 "Bombay" 2) = Some (mkPosition 19 72 None) /\
  exists st' : State,
    drawNode (Graph.mkNode 2 "Bombay" 2) (init None) = Some st' /\
    heap st' !! 2%nat = Some (drawNode_position (mkPosition 19 72 None)) /\
    heap st' !! 1%nat = Some (mkPosition 13 100 None) /\
    scene st' = [EarthMesh; NodeMesh 2 2].
Proof.
  split; [reflexivity|].
  destruct (drawNode_changes_one_object (Graph.mkNode 2 "Bombay" 2) (init None)
              (mkPosition 19 72 None) eq_refl)
    as (st' & Hrun & Hown & Hother & _ & _ & Hscene).
  exists st'. split; [exact Hrun|]. split; [exact Hown|]. split.
  - rewrite (Hother 1%nat); [reflexivity | discriminate].
  - exact Hscene.
Defined.

(** X5: [drawNode] is not a projection that can be repeated: drawn a second
    time, a node (or another node that shares its position object) gets the
    projection of the x and y of its first position, read as a
    coordinate. *)
Theorem drawNode_twice (n1 n2 : Graph.Node) (st : State) (p : Position) :
  Graph.position n2 = Graph.position n1 ->
  heap st !! Graph.position n1 = Some p ->
  exists (st1 st2 : State) (v : THREE.Vector3),
    drawNode n1 st = Some st1 /\
    drawNode n2 st1 = Some st2 /\
    position_of st1 n1 = Some v /\
    position_of st2 n1 = Some (Spec.project 5000 (THREE.x v) (THREE.y v)).
Proof.
  intros E H.
  destruct (drawNode_effect n1 st p H) as (st1 & R1 & H1 & _).
  assert (H1' : heap st1 !! Graph.position n2 = Some (drawNode_position p))
    by (rewrite E; exact H1).
  destruct (drawNode_effect n2 st1 _ H1') as (st2 & R2 & H2 & _).
  exists st1, st2, (Spec.project 5000 (pos_x p) (pos_y p)).
  split; [exact R1|]. split; [exact R2|]. split.
  - unfold position_of. rewrite H1. apply toVector3_drawNode_position.
  - unfold position_of. rewrite <- E, H2. apply toVector3_drawNode_position.
Qed.

Lemma drawNode_twice_witness :
  Graph.position (Graph.mkNode 0 "Bordeax" 0) = Graph.position (Graph.mkNode 0 "Bordeax" 0) /\
  heap (init None) !! Graph.position (Graph.mkNode 0 "Bordeax" 0) = Some (mkPosition 44 0 None) /\
  exists (st1 st2 : State) (v : THREE.Vector3),
    drawNode (Graph.mkNode 0 "Bordeax" 0) (init None) = Some st1 /\
    drawNode (Graph.mkNode 0 "Bordeax" 0) st1 = Some st2 /\
    position_of st1 (Graph.mkNode 0 "Bordeax" 0) = Some v /\
    position_of st2 (Graph.mkNode 0 "Bordeax" 0) =
      Some (Spec.project 5000 (THREE.x v) (THREE.y v)).
Proof.
  split; [reflexivity|]. split; [reflexivity|].
  apply (drawNode_twice (Graph.mkNode 0 "Bordeax" 0) (Graph.mkNode 0 "Bordeax" 0)
           (init None) (mkPosition 44 0 None)); reflexivity.
Defined.

(** ** The bulge of an arc *)

Lemma bulge_nonneg (dx dy : R) : 0 <= Rabs dx + Rabs dy / 1.3.
Proof. pose proof (Rabs_pos dx). pose proof (Rabs_pos dy). lra. Qed.

Lemma bulge_zero (dx dy : R) : Rabs dx + Rabs dy / 1.3 = 0 <-> dx = 0 /\ dy = 0.
Proof.
  pose proof (Rabs_pos dx). pose proof (Rabs_pos dy). split.
  - intros E. assert (Rabs dx = 0) by lra. assert (Rabs dy = 0) by lra.
    split.
    + destruct (Req_dec dx 0) as [|n]; [assumption|].
      exfalso. apply (Rabs_no_R0 _ n). assumption.
    + destruct (Req_dec dy 0) as [|n]; [assumption|].
      exfalso. apply (Rabs_no_R0 _ n). assumption.
  - intros [-> ->]. rewrite Rabs_R0. lra.
Qed.

(** X6: the middle control point of an arc has the x and the y of the
    midpoint of the endpoints, and a z that is never below the midpoint's:
    the bulge always goes in the direction of positive z, and it is zero
    exactly when the endpoints agree in x and in y. *)
Theorem drawEdge_curve_bulge (s t : THREE.Vector3) :
  THREE.x (THREE.v1 (drawEdge_curve s t)) = (THREE.x s + THREE.x t) / 2 /\
  THREE.y (THREE.v1 (drawEdge_curve s t)) = (THREE.y s + THREE.y t) / 2 /\
  (THREE.z s + THREE.z t) / 2 <= THREE.z (THREE.v1 (drawEdge_curve s t)) /\
  (THREE.z (THREE.v1 (drawEdge_curve s t)) = (THREE.z s + THREE.z t) / 2 <->
   THREE.x s = THREE.x t /\ THREE.y s = THREE.y t).
Proof.
  unfold drawEdge_curve; cbn [THREE.v1 THREE.x THREE.y THREE.z fst snd].
  pose proof (bulge_nonneg (THREE.x s - THREE.x t) (THREE.y s - THREE.y t)) as N.
  pose proof (bulge_zero (THREE.x s - THREE.x t) (THREE.y s - THREE.y t)) as Z.
  split; [reflexivity|]. split; [reflexivity|]. split; [lra|]. split.
  - intros E. destruct Z as [Z _]. destruct Z as [Hx Hy]; [lra|]. split; lra.
  - intros [Hx Hy]. destruct Z as [_ Z]. rewrite Z; [lra|]. split; lra.
Qed.

(** X7: [drawEdge]'s curve has no guard for equal endpoints: all three
    control points are then that one point. *)
Theorem drawEdge_curve_degenerate (s : THREE.Vector3) :
  drawEdge_curve s s = THREE.mkQuadraticBezierCurve3 s s s.
Proof.
  rewrite drawEdge_curve_eq. f_equal.
  unfold Spec.bulged_midpoint, Spec.midpoint; cbn [THREE.x THREE.y THREE.z].
  destruct s as [a b c]; cbn [THREE.x THREE.y THREE.z].
  replace (a - a) with 0 by ring. replace (b - b) with 0 by ring. rewrite Rabs_R0.
  apply Vector3_eq; lra.
Qed.

(** X8: the bulge does not always lead away from the sphere.  For two
    endpoints that mirror each other in x at a negative z, with
    3 * a < - 4 * c for their x = a, - a and z = c, the middle control point
    is strictly nearer to the origin than the endpoints are. *)
Theorem drawEdge_curve_bulge_inward (a b c : R) :
  0 < a -> c < 0 -> 3 * a < - 4 * c ->
  norm2 (THREE.mkVector3 (- a) b c) = norm2 (THREE.mkVector3 a b c) /\
  THREE.v1 (drawEdge_curve (THREE.mkVector3 a b c) (THREE.mkVector3 (- a) b c)) =
    THREE.mkVector3 0 b (c + 2 * a) /\
  norm2 (THREE.v1 (drawEdge_curve (THREE.mkVector3 a b c) (THREE.mkVector3 (- a) b c)))
    < norm2 (THREE.mkVector3 a b c).
Proof.
  intros Ha Hc Hac.
  assert (E : THREE.v1 (drawEdge_curve (THREE.mkVector3 a b c) (THREE.mkVector3 (- a) b c))
              = THREE.mkVector3 0 b (c + 2 * a)).
  { unfold drawEdge_curve; cbn [THREE.v1 THREE.x THREE.y THREE.z fst snd].
    replace (b - b) with 0 by ring. rewrite Rabs_R0.
    rewrite (Rabs_right (a - - a)) by lra. apply Vector3_eq; lra. }
  split; [|split; [exact E|]].
  - unfold norm2; cbn [THREE.x THREE.y THREE.z]. ring.
  - rewrite E. unfold norm2; cbn [THREE.x THREE.y THREE.z]. nra.
Qed.

Lemma drawEdge_curve_bulge_inward_witness :
  0 < 3000 /\ -4000 < 0 /\ 3 * 3000 < - 4 * -4000 /\
  norm2 (THREE.v1 (drawEdge_curve (THREE.mkVector3 3000 0 (-4000))
                     (THREE.mkVector3 (- 3000) 0 (-4000))))
    < norm2 (THREE.mkVector3 3000 0 (-4000)).
Proof.
  assert (H1 : 0 < 3000) by lra.
  assert (H2 : -4000 < 0) by lra.
  assert (H3 : 3 * 3000 < - 4 * -4000) by lra.
  split; [exact H1|]. split; [exact H2|]. split; [exact H3|].
  apply (drawEdge_curve_bulge_inward 3000 0 (-4000) H1 H2 H3).
Defined.

(** ** The loops of [createGraph] on any input *)

Lemma addNode_cases (g : Graph.t) (node : Graph.Node) :
  Graph.edges (fst (Graph.addNode g node)) = Graph.edges g /\
  (Graph.nodes (fst (Graph.addNode g node)) = Graph.nodes g \/
   Graph.nodes (fst (Graph.addNode g node)) = Graph.nodes g ++ [node]).
Proof.
  unfold Graph.addNode.
  destruct (negb (Graph.has_id g (Graph.id node)) && negb (Graph.reached_limit g));
    cbn [fst Graph.edges Graph.nodes]; auto.
Qed.

Lemma addEdge_cases (g : Graph.t) (a b : Graph.Node) :
  Graph.addEdge g a b = (g, false) \/
  exists g' : Graph.t,
    Graph.addEdge g a b = (g', true) /\
    Graph.nodes g' = Graph.nodes g /\
    Graph.edges g' = Graph.edges g ++ [Graph.mkEdge a b].
Proof.
  unfold Graph.addEdge.
  destruct (negb (Graph.id a =? Graph.id b)%nat
            && negb (existsb (Graph.connects a b) (Graph.edges g))).
  - right. eexists. split; [reflexivity|]. split; reflexivity.
  - left. reflexivity.
Qed.

Lemma position_of_heap (st st' : State) (node : Graph.Node) :
  heap st' = heap st -> position_of st' node = position_of st node.
Proof. unfold position_of. intros ->. reflexivity. Qed.

Lemma make_nodes_position (cs : list City) :
  forall (i : nat) (node : Graph.Node),
    node ∈ make_nodes i cs -> exists c : City, c ∈ cs /\ Graph.position node = position c.
Proof.
  induction cs as [|c cs IH]; intros i node H; cbn [make_nodes] in H.
  - apply elem_of_nil in H. contradiction.
  - apply elem_of_cons in H as [-> | H].
    + exists c. split; [apply list_elem_of_here | reflexivity].
    + destruct (IH _ _ H) as (c' & Hc' & E). exists c'. split; [|exact E].
      apply list_elem_of_further, Hc'.
Qed.

Lemma createGraph_nodes_run (cs : list City) :
  forall (i : nat) (nodes : list Graph.Node) (st : State),
    NoDup (map position cs) ->
    Forall (fun c => (position c < length (heap st))%nat) cs ->
    exists st' : State,
      createGraph_nodes i cs nodes st = Some (nodes ++ make_nodes i cs, st') /\
      scene st' = scene st ++ map mesh_of (make_nodes i cs) /\
      length (heap st') = length (heap st) /\
      (forall (c : City) (p : Position),
         c ∈ cs -> heap st !! position c = Some p ->
         heap st' !! position c = Some (drawNode_position p)) /\
      (forall l : loc, l ∉ map position cs -> heap st' !! l = heap st !! l) /\
      Graph.edges (graph st') = Graph.edges (graph st) /\
      (forall node : Graph.Node,
         node ∈ Graph.nodes (graph st') ->
         node ∈ Graph.nodes (graph st) \/ node ∈ make_nodes i cs).
Proof.
  induction cs as [|c cs IH]; intros i nodes st ND Hlen.
  - exists st. cbn [createGraph_nodes make_nodes map]. rewrite !app_nil_r.
    repeat split; auto. intros c p H. apply elem_of_nil in H. contradiction.
  - cbn [map] in ND. apply NoDup_cons in ND as [Hnotin ND].
    apply Forall_cons in Hlen as [Hc Hlen].
    destruct (lookup_lt_is_Some_2 (heap st) (position c) Hc) as [p0 Hp0].
    cbn [createGraph_nodes make_nodes map]. cbv zeta.
    set (node := Graph.mkNode i (data c) (position c)).
    set (st0 := set_graph (fst (Graph.addNode (graph st) node)) st).
    destruct (drawNode_effect node st0 p0 Hp0)
      as (st1 & R1 & Hown & Hother & Hl1 & Hg1 & Hsc1).
    rewrite R1. cbn [mbind option_bind].
    destruct (IH (S i) (nodes ++ [node]) st1 ND) as (st' & R & Hsc & Hl & Hproj & Hframe & He & Hn).
    { rewrite Hl1. exact Hlen. }
    destruct (addNode_cases (graph st) node) as [He0 Hn0].
    exists st'. split; [rewrite R, <- app_assoc; reflexivity|].
    split; [rewrite Hsc, Hsc1, <- app_assoc; reflexivity|].
    split; [rewrite Hl, Hl1; reflexivity|].
    split; [|split; [|split]].
    + intros c' p Hc' Hp. apply elem_of_cons in Hc' as [-> | Hc'].
      * rewrite Hframe by exact Hnotin.
        change (heap st0) with (heap st) in Hown. cbn [Graph.position node] in Hown.
        rewrite Hp in Hp0. injection Hp0 as <-. exact Hown.
      * apply Hproj; [exact Hc'|].
        rewrite Hother; [exact Hp|].
        cbn [Graph.position node]. intros E. apply Hnotin. rewrite <- E.
        apply (list_elem_of_fmap_2 position cs c' Hc').
    + intros l Hl'. apply not_elem_of_cons in Hl' as [Hne Hl'].
      rewrite Hframe by exact Hl'. apply Hother. exact Hne.
    + rewrite He, Hg1. exact He0.
    + intros n Hin. destruct (Hn n Hin) as [Hin1 | Hin1].
      * rewrite Hg1 in Hin1. cbn [graph st0 set_graph] in Hin1.
        destruct Hn0 as [E | E]; rewrite E in Hin1.
        -- left. exact Hin1.
        -- apply elem_of_app in Hin1 as [Hin1 | Hin1]; [left; exact Hin1|].
           apply list_elem_of_singleton in Hin1 as ->. right. apply list_elem_of_here.
      * right. apply list_elem_of_further, Hin1.
Qed.

Lemma line_of_heap (st st' : State) (e : Graph.Edge) (vertices : list THREE.Vector3) :
  heap st' = heap st -> line_of st e vertices -> line_of st' e vertices.
Proof.
  intros E (s & t & Hs & Ht & Hv). exists s, t.
  rewrite !(position_of_heap st st') by exact E. auto.
Qed.

Lemma drawn_heap (st st' : State) (node : Graph.Node) :
  heap st' = heap st -> drawn st node -> drawn st' node.
Proof. unfold drawn. intros E. rewrite (position_of_heap st st') by exact E. auto. Qed.

Lemma createGraph_targets_run (current : Graph.Node) (targets : list Graph.Node) :
  forall st : State,
    drawn st current ->
    Forall (drawn st) targets ->
    exists (st' : State) (new_edges : list Graph.Edge) (new_lines : list (list THREE.Vector3)),
      createGraph_targets current targets st = Some st' /\
      heap st' = heap st /\
      Graph.nodes (graph st') = Graph.nodes (graph st) /\
      Graph.edges (graph st') = Graph.edges (graph st) ++ new_edges /\
      scene st' = scene st ++ map Line new_lines /\
      Forall2 (line_of st) new_edges new_lines.
Proof.
  induction targets as [|target targets IH]; intros st Hc Ht.
  - exists st, [], []. cbn [createGraph_targets map]. rewrite !app_nil_r.
    repeat split; auto; constructor.
  - apply Forall_cons in Ht as [Hd Ht]. cbn [createGraph_targets].
    destruct (addEdge_cases (graph st) current target) as [E | (g' & E & Hn & He)]; rewrite E.
    + cbn [mbind option_bind].
      assert (Hst : set_graph (graph st) st = st) by (destruct st; reflexivity).
      rewrite Hst. exact (IH st Hc Ht).
    + destruct Hc as [s Hs]. destruct Hd as [t Htg].
      assert (Hs' : position_of (set_graph g' st) current = Some s) by exact Hs.
      assert (Ht' : position_of (set_graph g' st) target = Some t) by exact Htg.
      rewrite (drawEdge_eq _ _ _ _ _ Hs' Ht'). cbn [mbind option_bind heap graph scene set_graph].
      set (st1 := {| heap := heap st; graph := g';
                     scene := scene st ++ [Line (drawEdge_vertices s t)] |}).
      destruct (IH st1) as (st' & es & ls & R & Hh & Hnn & Hee & Hsc & Hl).
      { apply (drawn_heap st); [reflexivity | exists s; exact Hs]. }
      { eapply Forall_impl; [exact Ht|]. intros n. apply drawn_heap. reflexivity. }
      exists st', (Graph.mkEdge current target :: es), (drawEdge_vertices s t :: ls).
      split; [exact R|]. split; [exact Hh|].
      split; [rewrite Hnn; exact Hn|].
      split; [rewrite Hee; cbn [graph st1]; rewrite He, <- app_assoc; reflexivity|].
      split; [rewrite Hsc; cbn [scene st1 map]; rewrite <- app_assoc; reflexivity|].
      constructor.
      * exists s, t. auto.
      * eapply Forall2_impl; [exact Hl|]. intros e vs. apply line_of_heap. reflexivity.
Qed.

Lemma createGraph_edges_run (nodes : list Graph.Node) :
  forall st : State,
    Forall (drawn st) nodes ->
    exists (st' : State) (new_edges : list Graph.Edge) (new_lines : list (list THREE.Vector3)),
      createGraph_edges nodes st = Some st' /\
      heap st' = heap st /\
      Graph.nodes (graph st') = Graph.nodes (graph st) /\
      Graph.edges (graph st') = Graph.edges (graph st) ++ new_edges /\
      scene st' = scene st ++ map Line new_lines /\
      Forall2 (line_of st) new_edges new_lines.
Proof.
  induction nodes as [|current nodes IH]; intros st H.
  - exists st, [], []. cbn [createGraph_edges map]. rewrite !app_nil_r.
    repeat split; auto; constructor.
  - apply Forall_cons in H as [Hc Hn]. cbn [createGraph_edges].
    destruct (createGraph_targets_run current nodes st Hc Hn)
      as (st1 & es1 & ls1 & R1 & Hh1 & Hn1 & He1 & Hs1 & Hl1).
    rewrite R1. cbn [mbind option_bind].
    destruct (IH st1) as (st' & es & ls & R & Hh & Hnn & Hee & Hsc & Hl).
    { eapply Forall_impl; [exact Hn|]. intros n. apply drawn_heap. exact Hh1. }
    exists st', (es1 ++ es), (ls1 ++ ls).
    split; [exact R|]. split; [rewrite Hh; exact Hh1|].
    split; [rewrite Hnn; exact Hn1|].
    split; [rewrite Hee, He1, <- app_assoc; reflexivity|].
    split; [rewrite Hsc, Hs1, map_app, <- app_assoc; reflexivity|].
    apply Forall2_app; [exact Hl1|].
    eapply Forall2_impl; [exact Hl|]. intros e vs. apply line_of_heap. symmetry. exact Hh1.
Qed.

Lemma make_nodes_cities : make_nodes 0 cities = all_nodes.
Proof. reflexivity. Qed.

Lemma NoDup_cities : NoDup (map position cities).
Proof. apply (bool_decide_unpack _). vm_compute. reflexivity. Qed.

Lemma createGraph_run (st : State) :
  Forall (fun c => (position c < length (heap st))%nat) cities ->
  exists (st' : State) (new_edges : list Graph.Edge) (new_lines : list (list THREE.Vector3)),
    createGraph st = Some st' /\
    (forall (c : City) (p : Position),
       c ∈ cities -> heap st !! position c = Some p ->
       heap st' !! position c = Some (drawNode_position p)) /\
    (forall l : loc, l ∉ map position cities -> heap st' !! l = heap st !! l) /\
    scene st' = scene st ++ map mesh_of all_nodes ++ map Line new_lines /\
    Graph.edges (graph st') = Graph.edges (graph st) ++ new_edges /\
    Forall2 (line_of st') new_edges new_lines /\
    (forall node : Graph.Node,
       node ∈ Graph.nodes (graph st') ->
       node ∈ Graph.nodes (graph st) \/ node ∈ all_nodes).
Proof.
  intros Hlen. unfold createGraph.
  destruct (createGraph_nodes_run cities 0 [] st NoDup_cities Hlen)
    as (st1 & R1 & Hs1 & Hl1 & Hp1 & Hf1 & He1 & Hn1).
  rewrite R1. cbn [mbind option_bind app]. rewrite make_nodes_cities in *.
  destruct (createGraph_edges_run all_nodes st1)
    as (st' & es & ls & R & Hh & Hn & He & Hs & Hl).
  { apply Forall_forall. intros node Hin. rewrite <- make_nodes_cities in Hin.
    destruct (make_nodes_position _ _ _ Hin) as (c & Hc & E).
    pose proof (proj1 (Forall_forall _ _) Hlen c Hc) as Hlt.
    destruct (lookup_lt_is_Some_2 _ _ Hlt) as [p Hp].
    exists (Spec.project 5000 (pos_x p) (pos_y p)).
    unfold position_of. rewrite E, (Hp1 c p Hc Hp). apply toVector3_drawNode_position. }
  exists st', es, ls. split; [exact R|].
  split; [intros c p Hc Hp; rewrite Hh; exact (Hp1 c p Hc Hp)|].
  split; [intros l Hl'; rewrite Hh; exact (Hf1 l Hl')|].
  split; [rewrite Hs, Hs1, <- app_assoc; reflexivity|].
  split; [rewrite He, He1; reflexivity|].
  split.
  - eapply Forall2_impl; [exact Hl|]. intros e vs. apply line_of_heap. exact Hh.
  - intros node Hin. rewrite Hn in Hin. exact (Hn1 node Hin).
Qed.

(** X9: the first loop of [createGraph], on any list of cities whose
    position objects are different objects of the store: it makes one node
    per city, numbered from the start index on, adds one mesh per city to
    the scene whatever the graph does with the node, and leaves in each
    city's position object the projection of the coordinate it held, the
    other objects being untouched. *)
Theorem createGraph_nodes_each_once (cs : list City) (i : nat)
    (nodes : list Graph.Node) (st : State) :
  NoDup (map position cs) ->
  Forall (fun c => (position c < length (heap st))%nat) cs ->
  exists st' : State,
    createGraph_nodes i cs nodes st = Some (nodes ++ make_nodes i cs, st') /\
    scene st' = scene st ++ map mesh_of (make_nodes i cs) /\
    (forall (c : City) (p : Position),
       c ∈ cs -> heap st !! position c = Some p ->
       heap st' !! position c = Some (drawNode_position p)) /\
    (forall l : loc, l ∉ map position cs -> heap st' !! l = heap st !! l).
Proof.
  intros ND Hlen.
  destruct (createGraph_nodes_run cs i nodes st ND Hlen)
    as (st' & R & Hs & _ & Hp & Hf & _).
  exists st'. auto.
Qed.

Lemma createGraph_nodes_each_once_witness :
  NoDup (map position [mkCity "Berlin" 4; mkCity "Bangkok" 1]) /\
  Forall (fun c => (position c < length (heap (init (Some 0%nat))))%nat)
    [mkCity "Berlin" 4; mkCity "Bangkok" 1] /\
  exists st' : State,
    createGraph_nodes 5 [mkCity "Berlin" 4; mkCity "Bangkok" 1] [] (init (Some 0%nat))
      = Some ([Graph.mkNode 5 "Berlin" 4; Graph.mkNode 6 "Bangkok" 1], st') /\
    scene st' = [EarthMesh; NodeMesh 5 4; NodeMesh 6 1].
Proof.
  assert (ND : NoDup (map position [mkCity "Berlin" 4; mkCity "Bangkok" 1])).
  { apply (bool_decide_unpack _). vm_compute. reflexivity. }
  assert (Hlen : Forall (fun c => (position c < length (heap (init (Some 0%nat))))%nat)
                   [mkCity "Berlin" 4; mkCity "Bangkok" 1]).
  { repeat constructor; cbn; lia. }
  split; [exact ND|]. split; [exact Hlen|].
  destruct (createGraph_nodes_each_once _ 5%nat [] (init (Some 0%nat)) ND Hlen)
    as (st' & R & Hs & _).
  exists st'. split; [exact R | exact Hs].
Defined.

(** X10: the pairing loops of [createGraph], on any list of nodes that have
    all been drawn: they leave the store and the graph's nodes as they are,
    and they append to the scene exactly one line for each edge that the
    graph has accepted, in the same order, each line being the arc between
    the positions of the edge's two nodes. *)
Theorem createGraph_edges_line_per_edge (nodes : list Graph.Node) (st : State) :
  Forall (drawn st) nodes ->
  exists (st' : State) (new_edges : list Graph.Edge) (new_lines : list (list THREE.Vector3)),
    createGraph_edges nodes st = Some st' /\
    heap st' = heap st /\
    Graph.nodes (graph st') = Graph.nodes (graph st) /\
    Graph.edges (graph st') = Graph.edges (graph st) ++ new_edges /\
    scene st' = scene st ++ map Line new_lines /\
    Forall2 (line_of st) new_edges new_lines.
Proof. apply createGraph_edges_run. Qed.

Lemma createGraph_edges_line_per_edge_witness :
  Forall (drawn two_points) [north; east; north] /\
  exists (st' : State) (new_edges : list Graph.Edge) (new_lines : list (list THREE.Vector3)),
    createGraph_edges [north; east; north] two_points = Some st' /\
    heap st' = heap two_points /\
    Graph.nodes (graph st') = Graph.nodes (graph two_points) /\
    Graph.edges (graph st') = Graph.edges (graph two_points) ++ new_edges /\
    scene st' = scene two_points ++ map Line new_lines /\
    Forall2 (line_of two_points) new_edges new_lines.
Proof.
  assert (H : Forall (drawn two_points) [north; east; north]).
  { repeat constructor; eexists; reflexivity. }
  split; [exact H|].
  apply (createGraph_edges_line_per_edge [north; east; north] two_points H).
Defined.

(** X11: [createGraph] from any state whose store holds the position
    objects of the cities, whatever the graph already holds and whatever its
    limit is: every city's position object ends with the projection of its
    coordinate, all seven meshes are added before any line, and every edge
    that the graph accepts gets a line between positions that have
    all of x, y and z, since all nodes are drawn before the first edge. *)
Theorem createGraph_any_state (st : State) :
  Forall (fun c => (position c < length (heap st))%nat) cities ->
  exists (st' : State) (new_edges : list Graph.Edge) (new_lines : list (list THREE.Vector3)),
    createGraph st = Some st' /\
    (forall (c : City) (p : Position),
       c ∈ cities -> heap st !! position c = Some p ->
       heap st' !! position c = Some (drawNode_position p)) /\
    (forall l : loc, l ∉ map position cities -> heap st' !! l = heap st !! l) /\
    scene st' = scene st ++ map mesh_of all_nodes ++ map Line new_lines /\
    Graph.edges (graph st') = Graph.edges (graph st) ++ new_edges /\
    Forall2 (line_of st') new_edges new_lines.
Proof.
  intros Hlen.
  destruct (createGraph_run st Hlen) as (st' & es & ls & R & Hp & Hf & Hs & He & Hl & _).
  exists st', es, ls. auto 10.
Qed.

Lemma createGraph_any_state_witness :
  Forall (fun c => (position c < length (heap (init (Some 2%nat))))%nat) cities /\
  exists (st' : State) (new_edges : list Graph.Edge) (new_lines : list (list THREE.Vector3)),
    createGraph (init (Some 2%nat)) = Some st' /\
    scene st' = scene (init (Some 2%nat)) ++ map mesh_of all_nodes ++ map Line new_lines /\
    Graph.edges (graph st') = Graph.edges (graph (init (Some 2%nat))) ++ new_edges /\
    Forall2 (line_of st') new_edges new_lines.
Proof.
  assert (Hlen : Forall (fun c => (position c < length (heap (init (Some 2%nat))))%nat) cities).
  { repeat constructor; cbn; lia. }
  split; [exact Hlen|].
  destruct (createGraph_any_state (init (Some 2%nat)) Hlen)
    as (st' & es & ls & R & _ & _ & Hs & He & Hl).
  exists st', es, ls. auto.
Defined.

(** X12: every node that the graph holds after [createGraph] was in the
    graph before or has its mesh in the scene: the loop over [graph.nodes]
    in [render] meets no node of this run without a drawn object. *)
Theorem createGraph_graph_nodes_drawn (st : State) :
  Forall (fun c => (position c < length (heap st))%nat) cities ->
  exists st' : State,
    createGraph st = Some st' /\
    forall node : Graph.Node,
      node ∈ Graph.nodes (graph st') ->
      node ∈ Graph.nodes (graph st) \/ mesh_of node ∈ scene st'.
Proof.
  intros Hlen.
  destruct (createGraph_run st Hlen) as (st' & es & ls & R & _ & _ & Hs & _ & _ & Hn).
  exists st'. split; [exact R|]. intros node Hin.
  destruct (Hn node Hin) as [H | H]; [left; exact H|]. right.
  rewrite Hs. apply elem_of_app. right. apply elem_of_app. left.
  apply (list_elem_of_fmap_2 mesh_of all_nodes node H).
Qed.

Lemma createGraph_graph_nodes_drawn_witness :
  Forall (fun c => (position c < length (heap (init None)))%nat) cities /\
  exists st' : State,
    createGraph (init None) = Some st' /\
    forall node : Graph.Node,
      node ∈ Graph.nodes (graph st') ->
      node ∈ Graph.nodes (graph (init None)) \/ mesh_of node ∈ scene st'.
Proof.
  assert (Hlen : Forall (fun c => (position c < length (heap (init None)))%nat) cities).
  { repeat constructor; cbn; lia. }
  split; [exact Hlen|].
  apply (createGraph_graph_nodes_drawn (init None) Hlen).
Defined.

(** ** The info text *)

Lemma append_empty_r (s : string) : s +:+ "" = s.
Proof.
  induction s as [|a s IH]; [reflexivity|].
  change (String a (s +:+ "") = String a s). f_equal. exact IH.
Qed.

Lemma append_assoc (s1 s2 s3 : string) : (s1 +:+ s2) +:+ s3 = s1 +:+ s2 +:+ s3.
Proof.
  induction s1 as [|a s1 IH]; [reflexivity|].
  change (String a ((s1 +:+ s2) +:+ s3) = String a (s1 +:+ s2 +:+ s3)). f_equal. exact IH.
Qed.

Lemma append_is_empty (s1 s2 : string) :
  String.eqb (s1 +:+ s2) "" = String.eqb s1 "" && String.eqb s2 "".
Proof. destruct s1; reflexivity. Qed.

Lemma printInfo_loop (info_text : InfoText) :
  forall str : string, fold_left printInfo_step info_text str = joined str (shown info_text).
Proof.
  induction info_text as [|[k v] info IH]; intros str.
  - unfold joined, shown. cbn. destruct (String.eqb_spec str ""); subst; reflexivity.
  - cbn [fold_left]. rewrite IH. unfold printInfo_step, shown. cbn [snd map List.filter].
    fold (shown info).
    destruct (String.eqb_spec v "") as [-> | Hv]; cbn [negb andb].
    + rewrite andb_false_r, append_empty_r. reflexivity.
    + rewrite andb_true_r. unfold joined.
      destruct (String.eqb_spec str "") as [-> | Hs]; cbn [negb].
      * change ("" +:+ v) with v. cbn [String.concat].
        apply String.eqb_neq in Hv. rewrite Hv.
        destruct (shown info); reflexivity.
      * rewrite append_is_empty, append_is_empty.
        apply String.eqb_neq in Hs. rewrite Hs. cbn [andb].
        cbn [String.concat].
        destruct (shown info); rewrite !append_assoc; reflexivity.
Qed.

(** X13: [printInfo] shows the values of the info text that are not empty,
    in the order of their keys, with " - " between two of them and nothing
    before the first or after the last; empty values leave no trace. *)
Theorem printInfo_joins (info_text : list (string * string)) :
  printInfo info_text = String.concat " - " (shown info_text).
Proof. unfold printInfo. rewrite printInfo_loop. reflexivity. Qed.

Lemma info_get_set (key key' value : string) (info_text : InfoText) :
  info_get key' (info_set key value info_text) =
    if String.eqb key key' then Some value else info_get key' info_text.
Proof.
  induction info_text as [|[k v] info IH]; cbn [info_set info_get].
  - destruct (String.eqb_spec key key'); reflexivity.
  - destruct (String.eqb_spec k key) as [-> | Hk]; cbn [info_get].
    + destruct (String.eqb_spec key key'); reflexivity.
    + destruct (String.eqb_spec k key') as [-> | Hk'].
      * apply String.eqb_neq in Hk. rewrite String.eqb_sym, Hk. reflexivity.
      * exact IH.
Qed.

Lemma info_get_delete (key key' : string) (info_text : InfoText) :
  info_get key' (info_delete key info_text) =
    if String.eqb key key' then None else info_get key' info_text.
Proof.
  induction info_text as [|[k v] info IH]; cbn [info_delete info_get].
  - destruct (String.eqb key key'); reflexivity.
  - destruct (String.eqb_spec k key) as [-> | Hk]; cbn [info_get].
    + rewrite IH. destruct (String.eqb_spec key key'); reflexivity.
    + rewrite IH. destruct (String.eqb_spec k key') as [-> | Hk']; [|reflexivity].
      apply String.eqb_neq in Hk. rewrite String.eqb_sym, Hk. reflexivity.
Qed.

Lemma info_delete_set (key value : string) (info_text : InfoText) :
  info_get key info_text = None ->
  info_delete key (info_set key value info_text) = info_text.
Proof.
  induction info_text as [|[k v] info IH]; cbn [info_set info_get info_delete]; intros H.
  - rewrite String.eqb_refl. reflexivity.
  - destruct (String.eqb_spec k key) as [-> | Hk]; [discriminate|].
    cbn [info_delete]. apply String.eqb_neq in Hk. rewrite Hk, IH by exact H. reflexivity.
Qed.

Lemma shown_set_new (key value : string) (info_text : InfoText) :
  info_get key info_text = None ->
  value <> "" ->
  shown (info_set key value info_text) = shown info_text ++ [value].
Proof.
  intros H Hv. apply String.eqb_neq in Hv.
  induction info_text as [|[k v] info IH]; cbn [info_set info_get] in *.
  - unfold shown. cbn [map snd List.filter]. rewrite Hv. reflexivity.
  - destruct (String.eqb_spec k key) as [-> | Hk]; [discriminate|].
    unfold shown in *. cbn [map snd List.filter]. rewrite IH by exact H.
    destruct (negb (String.eqb v "")); reflexivity.
Qed.

(** X14: the [selected] callback changes the key [select] only: after it,
    the key holds "Object " followed by the object's id, or is absent when
    the callback got [null], and every other key of the info text has the
    value it had. *)
Theorem selected_lookup (obj : option nat) (info_text : list (string * string)) :
  info_get "select" (selected obj info_text) =
    (fun id : nat => "Object " +:+ pretty id) <$> obj /\
  forall key : string,
    key <> "select" -> info_get key (selected obj info_text) = info_get key info_text.
Proof.
  split.
  - destruct obj as [id|]; cbn [selected fmap option_fmap option_map].
    + rewrite info_get_set, String.eqb_refl. reflexivity.
    + rewrite info_get_delete, String.eqb_refl. reflexivity.
  - intros key Hk. apply not_eq_sym, String.eqb_neq in Hk.
    destruct obj as [id|]; cbn [selected].
    + rewrite info_get_set, Hk. reflexivity.
    + rewrite info_get_delete, Hk. reflexivity.
Qed.

(** X15: selecting an object and then selecting none brings back the info
    text as it was before, provided it had no selection then; so the info
    box shows again what it showed. *)
Theorem selected_then_none (id : nat) (info_text : list (string * string)) :
  info_get "select" info_text = None ->
  selected None (selected (Some id) info_text) = info_text /\
  printInfo (selected None (selected (Some id) info_text)) = printInfo info_text.
Proof.
  intros H. cbn [selected].
  rewrite (info_delete_set "select" _ info_text H). split; reflexivity.
Qed.

Lemma selected_then_none_witness :
  info_get "select" [("nodes", "Nodes 7")] = None /\
  selected None (selected (Some 4%nat) [("nodes", "Nodes 7")]) = [("nodes", "Nodes 7")] /\
  printInfo (selected None (selected (Some 4%nat) [("nodes", "Nodes 7")])) =
    printInfo [("nodes", "Nodes 7")].
Proof.
  split; [reflexivity|].
  apply (selected_then_none 4%nat [("nodes", "Nodes 7")]). reflexivity.
Defined.

(** X16: when an object is selected in an info text without a selection,
    the info box shows what it showed before, followed by the entry
    "Object " with the object's id as the last one. *)
Theorem printInfo_selected (id : nat) (info_text : list (string * string)) :
  info_get "select" info_text = None ->
  printInfo (selected (Some id) info_text) =
    String.concat " - " (shown info_text ++ ["Object " +:+ pretty id]).
Proof.
  intros H. unfold printInfo. rewrite printInfo_loop. cbn [selected joined String.eqb].
  rewrite (shown_set_new "select" _ info_text H); [reflexivity|].
  discriminate.
Qed.

Lemma printInfo_selected_witness :
  info_get "select" [("nodes", "Nodes 7"); ("calc", "")] = None /\
  printInfo (selected (Some 4%nat) [("nodes", "Nodes 7"); ("calc", "")]) =
    String.concat " - " (shown [("nodes", "Nodes 7"); ("calc", "")] ++ ["Object " +:+ pretty 4%nat]).
Proof.
  split; [reflexivity|].
  apply (printInfo_selected 4%nat [("nodes", "Nodes 7"); ("calc", "")]). reflexivity.
Defined.

(** ** Random numbers *)

Lemma Int_part_bounds (r : R) (a b : Z) :
  IZR a <= r -> r < IZR b + 1 -> (a <= Int_part r <= b)%Z.
Proof.
  intros Ha Hb. destruct (base_Int_part r) as [H1 H2]. split.
  - apply Z.lt_succ_r. apply lt_IZR. rewrite succ_IZR. lra.
  - apply Z.lt_succ_r. apply lt_IZR. rewrite succ_IZR. lra.
Qed.

(** X17: for integers from <= to and a random number from 0 (included) to 1
    (excluded), [randomFromTo] gives an integer from [from] to [to], both
    included. *)
Theorem randomFromTo_in_range (random : R) (from to : Z) :
  0 <= random < 1 ->
  (from <= to)%Z ->
  exists k : Z,
    randomFromTo random (IZR from) (IZR to) = IZR k /\ (from <= k <= to)%Z.
Proof.
  intros [H0 H1] Hft. unfold randomFromTo, Math_floor. eexists. split; [reflexivity|].
  apply IZR_le in Hft. apply Int_part_bounds; nra.
Qed.

Lemma randomFromTo_in_range_witness :
  0 <= 0.5 < 1 /\ (1 <= 10)%Z /\
  exists k : Z, randomFromTo 0.5 (IZR 1) (IZR 10) = IZR k /\ (1 <= k <= 10)%Z.
Proof.
  assert (H : 0 <= 0.5 < 1) by lra.
  assert (Hft : (1 <= 10)%Z) by lia.
  split; [exact H|]. split; [exact Hft|].
  apply (randomFromTo_in_range 0.5 1 10 H Hft).
Defined.

(** X18: every integer from [from] to [to] is a value of [randomFromTo] for
    some random number from 0 (included) to 1 (excluded). *)
Theorem randomFromTo_reaches (from to k : Z) :
  (from <= k <= to)%Z ->
  exists random : R,
    0 <= random < 1 /\ randomFromTo random (IZR from) (IZR to) = IZR k.
Proof.
  intros [Hfk Hkt]. apply IZR_le in Hfk, Hkt.
  assert (Hpos : 0 < IZR to - IZR from + 1) by lra.
  exists ((IZR k - IZR from) / (IZR to - IZR from + 1)). split.
  - split.
    + apply Rmult_le_pos; [lra|]. apply Rlt_le, Rinv_0_lt_compat, Hpos.
    + apply (Rmult_lt_reg_r (IZR to - IZR from + 1)); [exact Hpos|].
      unfold Rdiv. rewrite Rmult_assoc, Rinv_l by lra. lra.
  - unfold randomFromTo, Math_floor. f_equal. symmetry. apply Int_part_spec.
    unfold Rdiv. rewrite Rmult_assoc, Rinv_l by lra. lra.
Qed.

Lemma randomFromTo_reaches_witness :
  (1 <= 10 <= 10)%Z /\
  exists random : R, 0 <= random < 1 /\ randomFromTo random (IZR 1) (IZR 10) = IZR 10.
Proof.
  assert (H : (1 <= 10 <= 10)%Z) by lia.
  split; [exact H|].
  apply (randomFromTo_reaches 1 10 10 H).
Defined.

(** ** Drawing two nodes and their edge *)

(** X19: when two nodes with different position objects are drawn and then
    their edge is, the line added is the arc between the projections of the
    two coordinates, and both of its end control points lie on the sphere of
    radius 5000. *)
Theorem drawNode_drawNode_drawEdge (a b : Graph.Node) (st : State) (pa pb : Position) :
  Graph.position a <> Graph.position b ->
  heap st !! Graph.position a = Some pa ->
  heap st !! Graph.position b = Some pb ->
  exists st1 st2 st3 : State,
    drawNode a st = Some st1 /\
    drawNode b st1 = Some st2 /\
    drawEdge a b st2 = Some st3 /\
    let s := Spec.project 5000 (pos_x pa) (pos_y pa) in
    let t := Spec.project 5000 (pos_x pb) (pos_y pb) in
    scene st3 =
      scene st ++ [mesh_of a; mesh_of b; Line (drawEdge_vertices s t)] /\
    THREE.v0 (drawEdge_curve s t) = s /\
    THREE.v2 (drawEdge_curve s t) = t /\
    norm2 s = 5000 * 5000 /\
    norm2 t = 5000 * 5000.
Proof.
  intros Hab Ha Hb.
  destruct (drawNode_effect a st pa Ha) as (st1 & R1 & Ha1 & Ho1 & _ & _ & Hs1).
  assert (Hb1 : heap st1 !! Graph.position b = Some pb).
  { rewrite Ho1; [exact Hb | congruence]. }
  destruct (drawNode_effect b st1 pb Hb1) as (st2 & R2 & Hb2 & Ho2 & _ & _ & Hs2).
  assert (Pa : position_of st2 a = Some (Spec.project 5000 (pos_x pa) (pos_y pa))).
  { unfold position_of. rewrite Ho2, Ha1 by exact Hab. apply toVector3_drawNode_position. }
  assert (Pb : position_of st2 b = Some (Spec.project 5000 (pos_x pb) (pos_y pb))).
  { unfold position_of. rewrite Hb2. apply toVector3_drawNode_position. }
  eexists st1, st2, _. split; [exact R1|]. split; [exact R2|].
  split; [apply (drawEdge_eq _ _ _ _ _ Pa Pb)|].
  cbv zeta. cbn [scene]. split.
  - rewrite Hs2, Hs1, <- !app_assoc. reflexivity.
  - rewrite drawEdge_curve_eq. cbn [THREE.v0 THREE.v2].
    split; [reflexivity|]. split; [reflexivity|].
    split; apply norm2_project.
Qed.

Lemma drawNode_drawNode_drawEdge_witness :
  Graph.position (Graph.mkNode 0 "Bordeax" 0) <> Graph.position (Graph.mkNode 6 "Santiago" 6) /\
  heap (init None) !! Graph.position (Graph.mkNode 0 "Bordeax" 0) = Some (mkPosition 44 0 None) /\
  heap (init None) !! Graph.position (Graph.mkNode 6 "Santiago" 6)
    = Some (mkPosition (-33) (-70) None) /\
  exists st1 st2 st3 : State,
    drawNode (Graph.mkNode 0 "Bordeax" 0) (init None) = Some st1 /\
    drawNode (Graph.mkNode 6 "Santiago" 6) st1 = Some st2 /\
    drawEdge (Graph.mkNode 0 "Bordeax" 0) (Graph.mkNode 6 "Santiago" 6) st2 = Some st3 /\
    scene st3 =
      scene (init None) ++
        [mesh_of (Graph.mkNode 0 "Bordeax" 0); mesh_of (Graph.mkNode 6 "Santiago" 6);
         Line (drawEdge_vertices (Spec.project 5000 44 0) (Spec.project 5000 (-33) (-70)))].
Proof.
  assert (Hab : Graph.position (Graph.mkNode 0 "Bordeax" 0)
                <> Graph.position (Graph.mkNode 6 "Santiago" 6)) by discriminate.
  split; [exact Hab|]. split; [reflexivity|]. split; [reflexivity|].
  destruct (drawNode_drawNode_drawEdge (Graph.mkNode 0 "Bordeax" 0)
              (Graph.mkNode 6 "Santiago" 6) (init None)
              (mkPosition 44 0 None) (mkPosition (-33) (-70) None) Hab eq_refl eq_refl)
    as (st1 & st2 & st3 & R1 & R2 & R3 & Hs & _).
  exists st1, st2, st3. auto.
Defined.
